(** * BLUESPAWN-common/headers/common/wrappers.hpp

    A shallow embedding of the ownership and memory wrappers of
    [wrappers.hpp], and the properties of them that the specification
    states.

    - [Machine]: the fixed-width integer conversions the header relies on.
    - [GenericWrapper]: the reference-counted owner of one resource value.
    - [Win32]: the part of the operating system the wrappers call into,
      as an interface of oracles plus a record of observable state.
    - [HandleWrapper]: the owner of a kernel handle, with [SafeCloseHandle].
    - [AllocationWrapper]: a sized byte buffer with checked access.
    - [MemoryWrapper]: a view on local or foreign memory.
    - [Scenario]: a small concrete machine on which the definitions run.

    The properties follow the definitions, component by component. *)

From Stdlib Require Import ZArith Lia List.
From stdpp Require Import base decidable option list gmap.

Local Open Scope Z_scope.

(** ** Fixed-width integers (x64 Windows: [int] and [DWORD] have 32 bits,
    [SIZE_T] and pointers 64) *)

Module Machine.

Definition to_SIZE_T (z : Z) : Z := z mod 2 ^ 64.
Definition to_DWORD (z : Z) : Z := z mod 2 ^ 32.
Definition to_int (z : Z) : Z := (z + 2 ^ 31) mod 2 ^ 32 - 2 ^ 31.

Definition INT_MAX : Z := 2 ^ 31 - 1.
Definition SIZE_MAX : Z := 2 ^ 64 - 1.

(** The [min] macro of <Windows.h>: [((a) < (b)) ? (a) : (b)]. *)
Definition min (a b : Z) : Z := if a <? b then a else b.

End Machine.

(** ** The ownership primitive: [template<class T> class GenericWrapper] *)

(** What the template asks of [T]: a value that converts to [false]
    (the null pointer, the integer zero) and [==]. *)
Class Resource (T : Type) := {
  null : T;
  Resource_eq_dec :: EqDecision T
}.

#[export] Instance Resource_Z : Resource Z := {| null := 0 |}.

Module GenericWrapper.

Section Generic.

Context {T : Type} `{Resource T} {E : Type}.

(** The control block of [std::shared_ptr<void> ReferenceCounter]: the
    number of owners and the deleter given at construction. The deleter
    acts on the environment [E] of the release action. *)
Record control_block := ControlBlock {
  use_count : nat;
  deleter : E -> E
}.

(** One wrapper object: a reference to a control block and the two
    data members. *)
Record t := Wrapper {
  ReferenceCounter : nat;
  WrappedObject : T;
  BadValue : option T
}.

(** The control blocks alive, and the environment. *)
Record world := World {
  blocks : gmap nat control_block;
  env : E
}.

(** [(bool) object] *)
Definition truthy (object : T) : bool := negb (bool_decide (object = null)).

(** [object == BadValue], a [T] against a [std::optional<T>]: equal when
    the optional holds that value. *)
Definition eq_optional (object : T) (bad : option T) : bool :=
  bool_decide (bad = Some object).

(** The lambda [[object, BadValue, freeFunction](LPVOID memory){ ... }]:
    it owns copies of the constructor's arguments. *)
Definition release_closure (object : T) (freeFunction : T -> E -> E)
    (bad : option T) : E -> E :=
  fun e =>
    if (negb (bool_decide (is_Some bad)) || negb (eq_optional object bad))
       && truthy object
    then freeFunction object e
    else e.

(** The constructor: a new control block with one owner. A
    [shared_ptr] built from [nullptr] and a deleter owns the null
    pointer and still runs the deleter when its last owner goes. *)
Definition construct (object : T) (freeFunction : T -> E -> E)
    (bad : option T) (w : world) : t * world :=
  let id := fresh (dom (blocks w)) in
  (Wrapper id object bad,
   World (<[id := ControlBlock 1 (release_closure object freeFunction bad)]>
            (blocks w))
         (env w)).

(** The implicit copy constructor: the members are copied and the
    control block gains an owner. *)
Definition copy (g : t) (w : world) : t * world :=
  (g,
   World (alter (fun cb => ControlBlock (S (use_count cb)) (deleter cb))
                (ReferenceCounter g) (blocks w))
         (env w)).

(** The implicit destructor: the control block loses an owner; the last
    one runs the deleter and frees the block. *)
Definition destroy (g : t) (w : world) : world :=
  match blocks w !! ReferenceCounter g with
  | None => w
  | Some cb =>
      match use_count cb with
      | O | S O =>
          World (delete (ReferenceCounter g) (blocks w)) (deleter cb (env w))
      | S n =>
          World (<[ReferenceCounter g := ControlBlock n (deleter cb)]> (blocks w))
                (env w)
      end
  end.

(** [operator T()], [operator*], [operator->], [Get] *)
Definition Get (g : t) : T := WrappedObject g.

(** [operator==(T object)] *)
Definition op_eq (g : t) (object : T) : bool :=
  bool_decide (WrappedObject g = object).

(** [operator!] *)
Definition op_not (g : t) : bool :=
  negb (truthy (WrappedObject g)) || eq_optional (WrappedObject g) (BadValue g).

(** [operator bool] *)
Definition op_bool (g : t) : bool := negb (op_not g).

(** [Release]: [auto tmp = WrappedObject; WrappedObject = BadValue;
    return tmp;]. The assignment stores the sentinel held by
    [BadValue]; without a sentinel the null value is stored. This is a
    reading of the assignment: a [std::optional<T>] is not assignable to
    [T] at the handle and integer types. *)
Definition Release (g : t) : T * t :=
  let tmp := WrappedObject g in
  (tmp, Wrapper (ReferenceCounter g) (default null (BadValue g)) (BadValue g)).

(** [T* operator &() const] hands out the address of [WrappedObject],
    for functions that return a resource through a pointer; a store of
    [x] through that address changes the member of this wrapper object
    and nothing else. *)
Definition store_through_address (g : t) (x : T) : t :=
  Wrapper (ReferenceCounter g) x (BadValue g).

(** *** The life of one acquisition *)

(** After the constructor, owners of the acquisition come and go: a
    wrapper object is copied, or a wrapper object is destroyed. *)
Inductive step := Copy (g : t) | Drop (g : t).

Definition subject (s : step) : t :=
  match s with Copy g | Drop g => g end.

Definition run_step (s : step) (w : world) : world :=
  match s with
  | Copy g => snd (copy g w)
  | Drop g => destroy g w
  end.

Definition run (l : list step) (w : world) : world :=
  foldl (fun w s => run_step s w) w l.

(** The steps of [l] act on wrapper objects that share the control
    block of [g]: on [g], on its copies, and on what these have become
    since (a wrapper whose value was released is one of them). *)
Definition owners_of (g : t) (l : list step) : Prop :=
  Forall (fun s => ReferenceCounter (subject s) = ReferenceCounter g) l.

(** The number of owners after a sequence of steps, when every step
    has a live owner to act on. *)
Fixpoint owners (n : nat) (l : list step) : option nat :=
  match l with
  | [] => Some n
  | s :: l' =>
      match n with
      | O => None
      | S m => owners (match s with Copy _ => S n | Drop _ => m end) l'
      end
  end.

(** Whether the release action is due for this acquisition. *)
Definition releasable (object : T) (bad : option T) : bool :=
  negb (bool_decide (object = null)) && negb (bool_decide (bad = Some object)).

End Generic.

Arguments control_block : clear implicits.
Arguments t : clear implicits.
Arguments world : clear implicits.

End GenericWrapper.

(** ** The operating system, as far as the header calls into it *)

Module Win32.

(** Handles and pointers are 64-bit values. [INVALID_HANDLE_VALUE] is
    [(HANDLE)(LONG_PTR)-1], and the pseudo handle that [GetCurrentProcess]
    returns is [(HANDLE)-1] as well. *)
Definition INVALID_HANDLE_VALUE : Z := Machine.SIZE_MAX.
Definition GetCurrentProcess : Z := Machine.SIZE_MAX.
Definition ERROR_INVALID_HANDLE : Z := 6.

(** The calls that leave the program, in the order they are made. *)
Inductive os_call :=
| CloseHandle_call (h : Z)
| FindClose_call (h : Z)
| GetFileInformationByHandle_call (h : Z)
| ReadProcessMemory_call (h base n : Z)
| VirtualProtect_call (addr size prot : Z)
| VirtualProtectEx_call (h addr size prot : Z)
| VirtualAlloc_call (size : Z)
| VirtualFree_call (addr : Z)
| HeapAlloc_call (size : Z)
| HeapFree_call (addr : Z).

(** The state a call can see and change: the bytes mapped in the address
    space of the calling process, the thread's last error code, and the
    calls made so far. *)
Record os_state := OsState {
  mem : gmap Z Z;
  LastError : Z;
  trace : list os_call
}.

Definition log (c : os_call) (s : os_state) : os_state :=
  OsState (mem s) (LastError s) (trace s ++ [c]).

Definition set_mem (m : gmap Z Z) (s : os_state) : os_state :=
  OsState m (LastError s) (trace s).

Definition set_LastError (e : Z) (s : os_state) : os_state :=
  OsState (mem s) e (trace s).

(** What the system answers is not in the header: every answer is an
    oracle that may depend on the whole state, so also on the calls made
    before. *)
Class Kernel := {
  (** [GetFileInformationByHandle]: [None] when it succeeds, [Some e]
      when it fails and leaves [e] for [GetLastError]. *)
  file_information : os_state -> Z -> option Z;
  (** The bytes of a foreign process, [None] when they cannot be read. *)
  remote_read : os_state -> Z -> Z -> Z -> option (list Z);
  protect_local : os_state -> Z -> Z -> Z -> bool;
  protect_remote : os_state -> Z -> Z -> Z -> Z -> bool;
  (** The block an allocator hands out, [0] when it has none. *)
  virtual_alloc : os_state -> Z -> Z;
  heap_alloc : os_state -> Z -> Z;
  (** What a fresh [new char[n]] happens to hold. *)
  uninitialised : os_state -> Z -> list Z
}.

(** Reading and writing runs of bytes in the local address space;
    [None] is an access to a byte that is not mapped. *)
Fixpoint load_bytes (m : gmap Z Z) (a : Z) (n : nat) : option (list Z) :=
  match n with
  | O => Some []
  | S n' =>
      match m !! a, load_bytes m (a + 1) n' with
      | Some b, Some bs => Some (b :: bs)
      | _, _ => None
      end
  end.

Fixpoint store_bytes (m : gmap Z Z) (a : Z) (bs : list Z) : gmap Z Z :=
  match bs with
  | [] => m
  | b :: bs' => store_bytes (<[a := b]> m) (a + 1) bs'
  end.

Fixpoint unmap_bytes (m : gmap Z Z) (a : Z) (n : nat) : gmap Z Z :=
  match n with
  | O => m
  | S n' => unmap_bytes (delete a m) (a + 1) n'
  end.

Definition mapped (m : gmap Z Z) (a : Z) (n : nat) : bool :=
  bool_decide (is_Some (load_bytes m a n)).

Section Calls.

Context `{Kernel}.

Definition GetFileInformationByHandle (h : Z) (s : os_state) : bool * os_state :=
  match file_information s h with
  | None => (true, log (GetFileInformationByHandle_call h) s)
  | Some e => (false, set_LastError e (log (GetFileInformationByHandle_call h) s))
  end.

Definition GetLastError (s : os_state) : Z := Machine.to_DWORD (LastError s).

Definition CloseHandle (h : Z) (s : os_state) : os_state :=
  log (CloseHandle_call h) s.

Definition FindClose (h : Z) (s : os_state) : os_state :=
  log (FindClose_call h) s.

(** [ReadProcessMemory(h, base, buffer, n, nullptr)], the buffer being a
    variable of the caller: the bytes read, or [None] with the buffer as
    it was. The error code that a failed call leaves is not modelled:
    the header never asks for it after this call. *)
Definition ReadProcessMemory (h base n : Z) (s : os_state)
    : option (list Z) * os_state :=
  let s' := log (ReadProcessMemory_call h base n) s in
  match remote_read s h base n with
  | Some bs => if bool_decide (length bs = Z.to_nat n) then (Some bs, s') else (None, s')
  | None => (None, s')
  end.

(** The same with the buffer at address [dst] of the local address
    space. The system refuses a buffer it cannot write. *)
Definition ReadProcessMemory_at (h base dst n : Z) (s : os_state)
    : bool * os_state :=
  match ReadProcessMemory h base n s with
  | (Some bs, s') =>
      if mapped (mem s') dst (Z.to_nat n)
      then (true, set_mem (store_bytes (mem s') dst bs) s')
      else (false, s')
  | (None, s') => (false, s')
  end.

Definition VirtualProtect (addr size prot : Z) (s : os_state) : bool * os_state :=
  (protect_local s addr size prot, log (VirtualProtect_call addr size prot) s).

Definition VirtualProtectEx (h addr size prot : Z) (s : os_state)
    : bool * os_state :=
  (protect_remote s h addr size prot,
   log (VirtualProtectEx_call h addr size prot) s).

(** Both allocators are called for zeroed memory ([MEM_COMMIT] pages,
    [HEAP_ZERO_MEMORY]). *)
Definition allocate (p size : Z) (s : os_state) : os_state :=
  if p =? 0 then s
  else set_mem (store_bytes (mem s) p (replicate (Z.to_nat size) 0)) s.

Definition VirtualAlloc (size : Z) (s : os_state) : Z * os_state :=
  let p := virtual_alloc s size in
  (p, allocate p size (log (VirtualAlloc_call size) s)).

Definition HeapAlloc (size : Z) (s : os_state) : Z * os_state :=
  let p := heap_alloc s size in
  (p, allocate p size (log (HeapAlloc_call size) s)).

Definition VirtualFree (p size : Z) (s : os_state) : os_state :=
  set_mem (unmap_bytes (mem s) p (Z.to_nat size)) (log (VirtualFree_call p) s).

Definition HeapFree (p size : Z) (s : os_state) : os_state :=
  set_mem (unmap_bytes (mem s) p (Z.to_nat size)) (log (HeapFree_call p) s).

End Calls.

End Win32.

(** ** [class HandleWrapper : public GenericWrapper<HANDLE>] *)

Module HandleWrapper.

Import Win32.

Section Handle.

Context `{Kernel}.

(** [HRESULT a = GetLastError()] converts the [DWORD] to a signed 32-bit
    value before the comparison. *)
Definition SafeCloseHandle (handle : Z) (s : os_state) : os_state :=
  let '(ok, s1) := GetFileInformationByHandle handle s in
  if ok then CloseHandle handle s1
  else
    let a := Machine.to_int (GetLastError s1) in
    if negb (a =? ERROR_INVALID_HANDLE) then CloseHandle handle s1 else s1.

Definition construct (handle : Z) (w : GenericWrapper.world os_state)
    : GenericWrapper.t Z * GenericWrapper.world os_state :=
  GenericWrapper.construct handle SafeCloseHandle (Some INVALID_HANDLE_VALUE) w.

End Handle.

End HandleWrapper.

(** ** [class FindWrapper : public GenericWrapper<HANDLE>] *)

Module FindWrapper.

Import Win32.

Definition construct (handle : Z) (w : GenericWrapper.world os_state)
    : GenericWrapper.t Z * GenericWrapper.world os_state :=
  GenericWrapper.construct handle FindClose (Some INVALID_HANDLE_VALUE) w.

End FindWrapper.

(** ** [class AllocationWrapper] *)

(** A type that is read out of raw bytes ([reinterpret_cast<T*>]): its
    size and the value its object representation stands for. *)
Class Pod (T : Type) := {
  sizeof : Z;
  of_bytes : list Z -> T
}.

(** [CHAR] *)
#[export] Instance Pod_CHAR : Pod Z := {|
  sizeof := 1;
  of_bytes := fun bs => default 0 (head bs)
|}.

Module AllocationWrapper.

Import Win32.

Inductive AllocationFunction :=
| VIRTUAL_ALLOC | HEAP_ALLOC | MALLOC | CPP_ALLOC | CPP_ARRAY_ALLOC
| STACK_ALLOC | LOCAL_ALLOC | GLOBAL_ALLOC.

(** [Memory] holds the owned pointer and the tag its deleter frees it
    by; [pointer] and [AllocationSize] are the constructor's arguments. *)
Record t := Allocation {
  Memory : option (Z * AllocationFunction);
  pointer : Z;
  AllocationSize : Z
}.

Definition construct (memory size : Z) (AllocationType : AllocationFunction) : t :=
  Allocation
    (if negb (size =? 0) && negb (memory =? 0)
     then Some (memory, AllocationType) else None)
    memory size.

Definition has_value (a : t) : bool := bool_decide (is_Some (Memory a)).

(** [CHAR operator[](int i) const]: the comparison [i < AllocationSize]
    is made in [SIZE_T]. The result is [None] when the byte read is not
    mapped. *)
Definition op_index (m : gmap Z Z) (a : t) (i : Z) : option Z :=
  if has_value a && (Machine.to_SIZE_T i <? AllocationSize a)
  then m !! (pointer a + i)
  else Some 0.

(** [operator bool] *)
Definition op_bool (a : t) : bool := has_value a.

(** [operator LPVOID] *)
Definition op_LPVOID (a : t) : Z := pointer a.

Definition GetSize (a : t) : Z :=
  Machine.to_DWORD (if has_value a then AllocationSize a else 0).

(** [template<class T> std::optional<T> Dereference() const]: the
    outer [None] is an access to unmapped memory, the inner one is
    [std::nullopt]. *)
Definition Dereference {T : Type} `{Pod T} (m : gmap Z Z) (a : t)
    : option (option T) :=
  if (AllocationSize a <? sizeof) || negb (has_value a)
  then Some None
  else
    match load_bytes m (pointer a) (Z.to_nat sizeof) with
    | Some bs => Some (Some (of_bytes bs))
    | None => None
    end.

(** The loop of [CompareMemory]: [for(int i = 0; i < AllocationSize; i++)].
    [None] is an access to unmapped memory, an [int] counter that
    overflows, or fuel that ran out. *)
Fixpoint compare_loop (m : gmap Z Z) (this wrapper : t) (fuel : nat) (i : Z)
    : option bool :=
  if Machine.to_SIZE_T i <? AllocationSize this then
    match fuel with
    | O => None
    | S fuel' =>
        match m !! (pointer this + i), op_index m wrapper i with
        | Some p, Some q =>
            if negb (p =? q) then Some false
            else if i =? Machine.INT_MAX then None
            else compare_loop m this wrapper fuel' (i + 1)
        | _, _ => None
        end
    end
  else Some true.

Definition CompareMemory (m : gmap Z Z) (this wrapper : t) : option bool :=
  if negb (op_bool wrapper) && negb (has_value this) then Some true
  else if negb (op_bool wrapper) || negb (has_value this) then Some false
  else if AllocationSize wrapper =? AllocationSize this then
    compare_loop m this wrapper (Z.to_nat (AllocationSize this)) 0
  else Some false.

(** [SetByte] *)
Definition SetByte (m : gmap Z Z) (a : t) (offset value : Z)
    : option (bool * gmap Z Z) :=
  if offset <? AllocationSize a then
    match m !! (pointer a + offset) with
    | Some _ => Some (true, <[pointer a + offset := value]> m)
    | None => None
    end
  else Some (false, m).

(** The bytes an allocation owns are mapped. *)
Definition backed (m : gmap Z Z) (a : t) : Prop :=
  has_value a = true ->
  forall i, 0 <= i < AllocationSize a -> is_Some (m !! (pointer a + i)).

End AllocationWrapper.

(** ** [template<class T = CHAR> class MemoryWrapper] *)

Module MemoryWrapper.

Import Win32.

(** How a member function ends: it returns, it touches memory that is
    not mapped, or (in this model) the fuel given to a loop runs out
    before the loop ends. *)
Inductive outcome (A : Type) :=
| Returns (a : A) (s : os_state)
| AccessViolation (s : os_state)
| OutOfFuel (s : os_state).

Arguments Returns {A} a s.
Arguments AccessViolation {A} s.
Arguments OutOfFuel {A} s.

Definition final_state {A : Type} (o : outcome A) : os_state :=
  match o with
  | Returns _ s | AccessViolation s | OutOfFuel s => s
  end.

Definition and_then {A B : Type} (o : outcome A) (k : A -> os_state -> outcome B)
    : outcome B :=
  match o with
  | Returns a s => k a s
  | AccessViolation s => AccessViolation s
  | OutOfFuel s => OutOfFuel s
  end.

(** The calls that reach into another process. *)
Definition remote_call (c : os_call) : bool :=
  match c with
  | ReadProcessMemory_call _ _ _ | VirtualProtectEx_call _ _ _ _ => true
  | _ => false
  end.

(** The calls that reach into the process of handle [h]. *)
Definition remote_call_on (h : Z) (c : os_call) : bool :=
  match c with
  | ReadProcessMemory_call h' _ _ | VirtualProtectEx_call h' _ _ _ => h' =? h
  | _ => false
  end.

(** [RtlMoveMemory]: a [memmove] inside the local address space. *)
Definition MoveMemory (dst src n : Z) (s : os_state) : outcome unit :=
  match load_bytes (mem s) src (Z.to_nat n) with
  | Some bs =>
      if mapped (mem s) dst (Z.to_nat n)
      then Returns tt (set_mem (store_bytes (mem s) dst bs) s)
      else AccessViolation s
  | None => AccessViolation s
  end.

(** [std::string{ p }] for a pointer into the local address space. *)
Fixpoint read_c_string (fuel : nat) (a : Z) (s : os_state) : outcome (list Z) :=
  match fuel with
  | O => OutOfFuel s
  | S fuel' =>
      match mem s !! a with
      | None => AccessViolation s
      | Some c =>
          if c =? 0 then Returns [] s
          else and_then (read_c_string fuel' (a + 1) s)
                        (fun str s' => Returns (c :: str) s')
      end
  end.

(** [std::string{ memory }] for an array held as a value. *)
Fixpoint string_of_array (memory : list Z) : list Z :=
  match memory with
  | [] => []
  | c :: rest => if c =? 0 then [] else c :: string_of_array rest
  end.

Section View.

Context `{Kernel} {T : Type} `{Pod T}.

Record t := View {
  LocalCopy : T;
  address : Z;
  process : GenericWrapper.t Z;
  MemorySize : Z
}.

(** [T{}] *)
Definition zeroed : T := of_bytes (replicate (Z.to_nat sizeof) 0).

(** The constructor. The member [process] is a new [HandleWrapper]
    made from the raw handle. *)
Definition construct (lpMemoryBase size process_handle : Z)
    (w : GenericWrapper.world os_state) : t * GenericWrapper.world os_state :=
  let '(hw, w') := HandleWrapper.construct process_handle w in
  (View zeroed lpMemoryBase hw size, w').

(** The constructor with its defaults, [size = sizeof(T)] and
    [process = GetCurrentProcess()]. *)
Definition construct_default (lpMemoryBase : Z)
    (w : GenericWrapper.world os_state) : t * GenericWrapper.world os_state :=
  construct lpMemoryBase sizeof GetCurrentProcess w.

(** The raw handle, [process] converted to [HANDLE]. *)
Definition handle (v : t) : Z := GenericWrapper.Get (process v).

Definition Dereference (v : t) (s : os_state) : outcome T :=
  if GenericWrapper.op_not (process v) then
    match load_bytes (mem s) (address v) (Z.to_nat sizeof) with
    | Some bs => Returns (of_bytes bs) s
    | None => AccessViolation s
    end
  else
    match ReadProcessMemory (handle v) (address v) sizeof s with
    | (Some bs, s') => Returns (of_bytes bs) s'
    | (None, s') => Returns zeroed s'
    end.

(** What [operator->] points to. *)
Inductive member_pointer :=
| at_address (a : Z)
| at_LocalCopy
| at_nullptr.

Definition op_arrow (v : t) (s : os_state) : outcome (member_pointer * t) :=
  if GenericWrapper.op_not (process v) then Returns (at_address (address v), v) s
  else
    match ReadProcessMemory (handle v) (address v) sizeof s with
    | (Some bs, s') =>
        Returns (at_LocalCopy,
                 View (of_bytes bs) (address v) (process v) (MemorySize v)) s'
    | (None, s') =>
        Returns (at_nullptr,
                 View zeroed (address v) (process v) (MemorySize v)) s'
    end.

(** [Convert<V>] is [construct] at the other element type with the same
    three arguments; [GetOffset] builds its result the same way. The
    pointer sum is taken in 64 bits. *)
Definition GetOffset (v : t) (offset : Z) (w : GenericWrapper.world os_state)
    : t * GenericWrapper.world os_state :=
  if offset >? MemorySize v then construct 0 0 (handle v) w
  else construct (Machine.to_SIZE_T (address v + offset))
                 (Machine.to_SIZE_T (MemorySize v - offset))
                 (handle v) w.

(** [Protect(protections, size = -1)]: the [-1] is compared as a
    [SIZE_T]. *)
Definition Protect (v : t) (protections size : Z) (s : os_state) : outcome bool :=
  let size := if size =? Machine.SIZE_MAX then MemorySize v else size in
  if GenericWrapper.op_not (process v) then
    let '(r, s') := VirtualProtect (address v) size protections s in Returns r s'
  else
    let '(r, s') := VirtualProtectEx (handle v) (address v) size protections s in
    Returns r s'.

(** [new char[n]]: an array of [n] bytes of which nothing is known. *)
Definition new_char_array (n : Z) (s : os_state) : list Z :=
  resize (Z.to_nat n) 0 (uninitialised s n).

(** The inner loop of [ReadString],
    [for(; idx < maxIdx; idx++){ if(memory[idx] == 0){ valid = true; break; }
       delete[] memory; memory = new char[maxIdx * 2]; }],
    giving [idx], [memory] and [valid] after it; [None] is a read
    outside the array. *)
Fixpoint scan (fuel : nat) (idx maxIdx : Z) (memory : list Z) (s : os_state)
    : option (Z * list Z * bool) :=
  if idx <? maxIdx then
    match fuel with
    | O => None
    | S fuel' =>
        match memory !! Z.to_nat idx with
        | None => None
        | Some c =>
            if c =? 0 then Some (idx, memory, true)
            else scan fuel' (Machine.to_int (idx + 1)) maxIdx
                      (new_char_array
                         (Machine.to_SIZE_T (Machine.to_int (maxIdx * 2))) s)
                      s
        end
    end
  else Some (idx, memory, false).

(** The outer loop,
    [while(!valid && !ReadProcessMemory(process, address, memory,
                        maxIdx = min(maxIdx * 2, MemorySize), nullptr))],
    entered with [valid] false, and the [return] after it. A read that
    succeeds makes the condition false and leaves [valid] as it is. *)
Fixpoint read_loop (fuel : nat) (v : t) (idx maxIdx : Z) (memory : list Z)
    (s : os_state) : outcome (list Z) :=
  match fuel with
  | O => OutOfFuel s
  | S fuel' =>
      let maxIdx' :=
        Machine.to_int
          (Machine.min (Machine.to_SIZE_T (Machine.to_int (maxIdx * 2)))
                       (MemorySize v)) in
      match ReadProcessMemory (handle v) (address v)
                              (Machine.to_SIZE_T maxIdx') s with
      | (Some _, s') => Returns [] s'
      | (None, s') =>
          match scan (Z.to_nat (maxIdx' - idx)) idx maxIdx' memory s' with
          | None => AccessViolation s'
          | Some (idx', memory', valid) =>
              if valid then Returns (string_of_array memory') s'
              else read_loop fuel' v idx' maxIdx' memory' s'
          end
      end
  end.

Definition ReadString (fuel : nat) (v : t) (s : os_state) : outcome (list Z) :=
  if GenericWrapper.op_not (process v) then read_c_string fuel (address v) s
  else
    let idx := 0 in
    let maxIdx := 10 in
    let memory :=
      new_char_array (Machine.to_SIZE_T (Machine.to_int (maxIdx * 2))) s in
    read_loop fuel v idx maxIdx memory s.

(** The destructor of an allocation made here, when it is the last
    owner of its memory. *)
Definition free_allocation (a : AllocationWrapper.t) (s : os_state) : os_state :=
  match AllocationWrapper.Memory a with
  | Some (p, AllocationWrapper.VIRTUAL_ALLOC) =>
      VirtualFree p (AllocationWrapper.AllocationSize a) s
  | Some (p, AllocationWrapper.HEAP_ALLOC) =>
      HeapFree p (AllocationWrapper.AllocationSize a) s
  | _ => s
  end.

(** The two branches of [ToAllocationWrapper] differ in the allocator
    only. *)
Definition copy_into (v : t) (wrapper : AllocationWrapper.t) (size : Z)
    (s : os_state) : outcome AllocationWrapper.t :=
  if GenericWrapper.op_bool (process v) then
    match ReadProcessMemory_at (handle v) (address v)
                               (AllocationWrapper.op_LPVOID wrapper) size s with
    | (true, s') => Returns wrapper s'
    | (false, s') =>
        Returns (AllocationWrapper.construct 0 0 AllocationWrapper.STACK_ALLOC)
                (free_allocation wrapper s')
    end
  else
    and_then (MoveMemory (AllocationWrapper.op_LPVOID wrapper) (address v) size s)
             (fun _ s' => Returns wrapper s').

Definition ToAllocationWrapper (v : t) (size : Z) (s : os_state)
    : outcome AllocationWrapper.t :=
  let size := Machine.to_DWORD (Machine.min (Machine.to_SIZE_T size) (MemorySize v)) in
  if size >? 32768 then
    let '(p, s1) := VirtualAlloc size s in
    copy_into v (AllocationWrapper.construct p size AllocationWrapper.VIRTUAL_ALLOC)
              size s1
  else
    let '(p, s1) := HeapAlloc size s in
    copy_into v (AllocationWrapper.construct p size AllocationWrapper.HEAP_ALLOC)
              size s1.

(** The five member functions that choose between direct access and the
    calls for a foreign process, each run from the state [s]; the states
    they end in. *)
Definition access_runs (fuel : nat) (protections size n : Z) (v : t)
    (s : os_state) : list os_state :=
  [ final_state (Dereference v s);
    final_state (op_arrow v s);
    final_state (Protect v protections size s);
    final_state (ReadString fuel v s);
    final_state (ToAllocationWrapper v n s) ].

End View.

Arguments t : clear implicits.

(** From [s] to [s'] no call reached into another process. *)
Definition stays_local (s s' : os_state) : Prop :=
  exists new, trace s' = trace s ++ new /\ existsb remote_call new = false.

(** From [s] to [s'] a call reached into the process of handle [h]. *)
Definition reaches_process (h : Z) (s s' : os_state) : Prop :=
  exists new, trace s' = trace s ++ new /\ existsb (remote_call_on h) new = true.

End MemoryWrapper.

(** ** More of [AllocationWrapper]: the strings it reads *)

Module AllocationText.

Import Win32.

(** [strnlen(p, n)]: the number of bytes before the first zero among
    the [n] bytes at [p]; [None] is a read of a byte that is not
    mapped. *)
Fixpoint strnlen (m : gmap Z Z) (p : Z) (n : nat) : option nat :=
  match n with
  | O => Some O
  | S n' =>
      match m !! p with
      | None => None
      | Some c =>
          if c =? 0 then Some O
          else match strnlen m (p + 1) n' with
               | Some k => Some (S k)
               | None => None
               end
      end
  end.

(** [std::optional<std::string> ReadString() const]: the bytes counted
    by [strnlen] are copied into a buffer of one more byte, the last
    byte is set to zero and the string is built from the buffer. *)
Definition ReadString (m : gmap Z Z) (a : AllocationWrapper.t)
    : option (option (list Z)) :=
  if AllocationWrapper.has_value a then
    match strnlen m (AllocationWrapper.pointer a)
                  (Z.to_nat (AllocationWrapper.AllocationSize a)) with
    | None => None
    | Some size =>
        match load_bytes m (AllocationWrapper.pointer a) size with
        | None => None
        | Some buffer => Some (Some (MemoryWrapper.string_of_array (buffer ++ [0])))
        end
    end
  else Some None.

(** A [WCHAR] is two bytes, the low one first. *)
Definition wchar_of_bytes (lo hi : Z) : Z := lo mod 256 + 256 * (hi mod 256).

Definition wchar_at (m : gmap Z Z) (p : Z) : option Z :=
  match m !! p, m !! (p + 1) with
  | Some lo, Some hi => Some (wchar_of_bytes lo hi)
  | _, _ => None
  end.

(** [wcsnlen(p, n)] *)
Fixpoint wcsnlen (m : gmap Z Z) (p : Z) (n : nat) : option nat :=
  match n with
  | O => Some O
  | S n' =>
      match wchar_at m p with
      | None => None
      | Some c =>
          if c =? 0 then Some O
          else match wcsnlen m (p + 2) n' with
               | Some k => Some (S k)
               | None => None
               end
      end
  end.

Fixpoint load_wchars (m : gmap Z Z) (p : Z) (n : nat) : option (list Z) :=
  match n with
  | O => Some []
  | S n' =>
      match wchar_at m p, load_wchars m (p + 2) n' with
      | Some c, Some cs => Some (c :: cs)
      | _, _ => None
      end
  end.

(** [std::optional<std::wstring> ReadWString() const]: at most
    [AllocationSize / 2] characters are looked at. *)
Definition ReadWString (m : gmap Z Z) (a : AllocationWrapper.t)
    : option (option (list Z)) :=
  if AllocationWrapper.has_value a then
    match wcsnlen m (AllocationWrapper.pointer a)
                  (Z.to_nat (AllocationWrapper.AllocationSize a / 2)) with
    | None => None
    | Some size =>
        match load_wchars m (AllocationWrapper.pointer a) size with
        | None => None
        | Some buffer => Some (Some (MemoryWrapper.string_of_array (buffer ++ [0])))
        end
    end
  else Some None.

(** [template<class T = LPVOID> T* GetAsPointer()] *)
Definition GetAsPointer (a : AllocationWrapper.t) : Z := AllocationWrapper.pointer a.

End AllocationText.

(** ** The memory an [AllocationWrapper] owns *)

(** [Memory] is a [std::shared_ptr<char[]>] whose deleter is chosen by
    the allocation type. The owner count is kept in a control block as
    for [GenericWrapper]; the environment records the deallocator that
    was called and the pointer it was called with. *)
Module AllocationOwner.

Inductive deallocation :=
| by_delete (p : Z)
| by_delete_array (p : Z)
| by_free (p : Z)
| by_HeapFree (p : Z)
| by_VirtualFree (p : Z)
| by_GlobalFree (p : Z)
| by_LocalFree (p : Z).

(** The lambda [[AllocationType](char* value){ ... }]. *)
Definition deallocate (AllocationType : AllocationWrapper.AllocationFunction)
    (value : Z) (done : list deallocation) : list deallocation :=
  match AllocationType with
  | AllocationWrapper.CPP_ALLOC => done ++ [by_delete value]
  | AllocationWrapper.CPP_ARRAY_ALLOC => done ++ [by_delete_array value]
  | AllocationWrapper.MALLOC => done ++ [by_free value]
  | AllocationWrapper.HEAP_ALLOC => done ++ [by_HeapFree value]
  | AllocationWrapper.VIRTUAL_ALLOC => done ++ [by_VirtualFree value]
  | AllocationWrapper.GLOBAL_ALLOC => done ++ [by_GlobalFree value]
  | AllocationWrapper.LOCAL_ALLOC => done ++ [by_LocalFree value]
  | AllocationWrapper.STACK_ALLOC => done
  end.

(** An allocation together with the control block of its [Memory], when
    it has one. *)
Record t := Owned {
  fields : AllocationWrapper.t;
  control : option nat
}.

Definition world := GenericWrapper.world (list deallocation).

Definition construct (memory size : Z)
    (AllocationType : AllocationWrapper.AllocationFunction) (w : world)
    : t * world :=
  let a := AllocationWrapper.construct memory size AllocationType in
  match AllocationWrapper.Memory a with
  | Some (value, ty) =>
      let id := fresh (dom (GenericWrapper.blocks w)) in
      (Owned a (Some id),
       GenericWrapper.World
         (<[id := GenericWrapper.ControlBlock 1 (deallocate ty value)]>
            (GenericWrapper.blocks w))
         (GenericWrapper.env w))
  | None => (Owned a None, w)
  end.

(** The implicit copy constructor and destructor: those of the
    [shared_ptr] when there is one. *)
Definition copy (o : t) (w : world) : t * world :=
  match control o with
  | Some id =>
      (o,
       GenericWrapper.World
         (alter (fun cb => GenericWrapper.ControlBlock
                             (S (GenericWrapper.use_count cb))
                             (GenericWrapper.deleter cb))
                id (GenericWrapper.blocks w))
         (GenericWrapper.env w))
  | None => (o, w)
  end.

Definition destroy (o : t) (w : world) : world :=
  match control o with
  | None => w
  | Some id =>
      match GenericWrapper.blocks w !! id with
      | None => w
      | Some cb =>
          match GenericWrapper.use_count cb with
          | O | S O =>
              GenericWrapper.World (delete id (GenericWrapper.blocks w))
                (GenericWrapper.deleter cb (GenericWrapper.env w))
          | S n =>
              GenericWrapper.World
                (<[id := GenericWrapper.ControlBlock n (GenericWrapper.deleter cb)]>
                   (GenericWrapper.blocks w))
                (GenericWrapper.env w)
          end
      end
  end.

Inductive step := Copy | Drop.

Definition run_step (o : t) (s : step) (w : world) : world :=
  match s with
  | Copy => snd (copy o w)
  | Drop => destroy o w
  end.

Definition run (o : t) (l : list step) (w : world) : world :=
  foldl (fun w s => run_step o s w) w l.

(** The number of owners after a sequence of steps, when every step
    has a live owner to act on. *)
Fixpoint owners (n : nat) (l : list step) : option nat :=
  match l with
  | [] => Some n
  | s :: l' =>
      match n with
      | O => None
      | S m => owners (match s with Copy => S n | Drop => m end) l'
      end
  end.

End AllocationOwner.

(** ** More of [MemoryWrapper]: conversions, the end of a view, wide strings *)

Module MemoryView.

Import Win32.

(** [std::wstring{ memory }] for an array held as a value: the
    characters before the first zero, [None] when the array holds no
    zero and the read runs past its end. *)
Fixpoint wstring_of_array (memory : list Z) : option (list Z) :=
  match memory with
  | [] => None
  | c :: rest =>
      if c =? 0 then Some []
      else match wstring_of_array rest with
           | Some str => Some (c :: str)
           | None => None
           end
  end.

(** The two-byte characters that a run of bytes holds. *)
Fixpoint wchars_of_bytes (bs : list Z) : list Z :=
  match bs with
  | lo :: hi :: rest => AllocationText.wchar_of_bytes lo hi :: wchars_of_bytes rest
  | _ => []
  end.

(** [std::wstring{ p }] for a pointer into the local address space. *)
Fixpoint read_c_wstring (fuel : nat) (a : Z) (s : os_state)
    : MemoryWrapper.outcome (list Z) :=
  match fuel with
  | O => MemoryWrapper.OutOfFuel s
  | S fuel' =>
      match AllocationText.wchar_at (mem s) a with
      | None => MemoryWrapper.AccessViolation s
      | Some c =>
          if c =? 0 then MemoryWrapper.Returns [] s
          else MemoryWrapper.and_then (read_c_wstring fuel' (a + 2) s)
                 (fun str s' => MemoryWrapper.Returns (c :: str) s')
      end
  end.

(** The inner loop of [ReadWstring],
    [for(; idx < maxIdx; idx++){ if(memory[idx] == 0){ valid = true; break; } }],
    giving [idx] and [valid] after it; [None] is a read outside the
    array. *)
Fixpoint wscan (fuel : nat) (idx maxIdx : Z) (memory : list Z)
    : option (Z * bool) :=
  if idx <? maxIdx then
    match fuel with
    | O => None
    | S fuel' =>
        match memory !! Z.to_nat idx with
        | None => None
        | Some c =>
            if c =? 0 then Some (idx, true)
            else wscan fuel' (Machine.to_int (idx + 1)) maxIdx memory
        end
    end
  else Some (idx, false).

Section View.

Context `{Kernel} {T : Type} `{Pod T}.

(** [template<class V> MemoryWrapper<V> Convert() const] *)
Definition Convert {V : Type} `{Pod V} (v : MemoryWrapper.t T)
    (w : GenericWrapper.world os_state)
    : MemoryWrapper.t V * GenericWrapper.world os_state :=
  MemoryWrapper.construct (T := V) (MemoryWrapper.address v)
    (MemoryWrapper.MemorySize v) (MemoryWrapper.handle v) w.

(** The implicit destructor: of the members only [process] has one that
    does anything. *)
Definition destroy (v : MemoryWrapper.t T) (w : GenericWrapper.world os_state)
    : GenericWrapper.world os_state :=
  GenericWrapper.destroy (MemoryWrapper.process v) w.

(** [operator bool] and [operator!] *)
Definition op_bool (v : MemoryWrapper.t T) : bool :=
  negb (MemoryWrapper.address v =? 0).

Definition op_not (v : MemoryWrapper.t T) : bool :=
  MemoryWrapper.address v =? 0.

(** [operator T*] *)
Definition op_pointer (v : MemoryWrapper.t T) : Z := MemoryWrapper.address v.

(** [new wchar_t[n]] *)
Definition new_wchar_array (n : Z) (s : os_state) : list Z :=
  wchars_of_bytes (resize (2 * Z.to_nat n) 0 (uninitialised s (2 * n))).

(** The outer loop of [ReadWstring],
    [while(!valid && !ReadProcessMemory(process, address, memory,
       (maxIdx = min(maxIdx * 2, MemorySize / sizeof(WCHAR))) * sizeof(WCHAR),
       nullptr))],
    entered with [valid] false. The array is replaced by a fresh one
    after every scan, also after the scan that found a zero, and the
    fresh one is what the string is built from. *)
Fixpoint wread_loop (fuel : nat) (v : MemoryWrapper.t T) (idx maxIdx : Z)
    (memory : list Z) (s : os_state) : MemoryWrapper.outcome (list Z) :=
  match fuel with
  | O => MemoryWrapper.OutOfFuel s
  | S fuel' =>
      let maxIdx' :=
        Machine.to_int
          (Machine.min (Machine.to_SIZE_T (Machine.to_int (maxIdx * 2)))
                       (MemoryWrapper.MemorySize v / 2)) in
      match ReadProcessMemory (MemoryWrapper.handle v) (MemoryWrapper.address v)
              (Machine.to_SIZE_T (Machine.to_SIZE_T maxIdx' * 2)) s with
      | (Some _, s') => MemoryWrapper.Returns [] s'
      | (None, s') =>
          match wscan (Z.to_nat (maxIdx' - idx)) idx maxIdx' memory with
          | None => MemoryWrapper.AccessViolation s'
          | Some (idx', valid) =>
              let memory' :=
                new_wchar_array
                  (Machine.to_SIZE_T (Machine.to_int (maxIdx' * 2))) s' in
              if valid then
                match wstring_of_array memory' with
                | Some str => MemoryWrapper.Returns str s'
                | None => MemoryWrapper.AccessViolation s'
                end
              else wread_loop fuel' v idx' maxIdx' memory' s'
          end
      end
  end.

(** What every array of the foreign [ReadString] is: a fresh one. *)
Definition fresh_char_array (memory : list Z) : Prop :=
  exists n s0, memory = MemoryWrapper.new_char_array n s0.

Definition ReadWstring (fuel : nat) (v : MemoryWrapper.t T) (s : os_state)
    : MemoryWrapper.outcome (list Z) :=
  if GenericWrapper.op_not (MemoryWrapper.process v)
  then read_c_wstring fuel (MemoryWrapper.address v) s
  else
    let idx := 0 in
    let maxIdx := 10 in
    let memory :=
      new_wchar_array (Machine.to_SIZE_T (Machine.to_int (maxIdx * 2))) s in
    wread_loop fuel v idx maxIdx memory s.

End View.

End MemoryView.

(** ** [class AcquireMutex] *)

(** The guard of a named mutex. The calls it makes are recorded next to
    the state of the system; what is described is the order of the
    calls and the ownership of the handle, for a wait that returns. *)
Module AcquireMutex.

Import Win32.

Inductive lock_call :=
| WaitForSingleObject_call (h : Z)
| ReleaseMutex_call (h : Z).

Record lock_state := LockState {
  system : os_state;
  calls : list lock_call
}.

Definition on_system (f : os_state -> os_state) (e : lock_state) : lock_state :=
  LockState (f (system e)) (calls e).

Definition log_lock (c : lock_call) (e : lock_state) : lock_state :=
  LockState (system e) (calls e ++ [c]).

Section Mutex.

Context `{Kernel}.

(** [typedef HandleWrapper MutexType]: the constructor of
    [HandleWrapper], its release action acting on the system part of
    the state. *)
Definition MutexType (handle : Z) (w : GenericWrapper.world lock_state)
    : GenericWrapper.t Z * GenericWrapper.world lock_state :=
  GenericWrapper.construct handle
    (fun h => on_system (HandleWrapper.SafeCloseHandle h))
    (Some INVALID_HANDLE_VALUE) w.

(** The two members: a copy of the mutex wrapper, and the control block
    of [tracker]. *)
Record t := Guard {
  hMutex : GenericWrapper.t Z;
  tracker : nat
}.

(** The constructor: [hMutex{ mutex }] copies the wrapper, [tracker]
    gets a control block whose deleter is
    [[&](LPVOID nul){ ReleaseMutex(hMutex); }], and the body waits. The
    member [hMutex] is private and never assigned, so the handle the
    deleter reads is the one copied here. *)
Definition construct (mutex : GenericWrapper.t Z)
    (w : GenericWrapper.world lock_state)
    : t * GenericWrapper.world lock_state :=
  let '(member, w1) := GenericWrapper.copy mutex w in
  let id := fresh (dom (GenericWrapper.blocks w1)) in
  let release :=
    log_lock (ReleaseMutex_call (GenericWrapper.Get member)) in
  (Guard member id,
   GenericWrapper.World
     (<[id := GenericWrapper.ControlBlock 1 release]> (GenericWrapper.blocks w1))
     (log_lock (WaitForSingleObject_call (GenericWrapper.Get member))
               (GenericWrapper.env w1))).

(** The end of a [shared_ptr]: its control block loses an owner. *)
Definition drop_block (id : nat) (w : GenericWrapper.world lock_state)
    : GenericWrapper.world lock_state :=
  match GenericWrapper.blocks w !! id with
  | None => w
  | Some cb =>
      match GenericWrapper.use_count cb with
      | O | S O =>
          GenericWrapper.World (delete id (GenericWrapper.blocks w))
            (GenericWrapper.deleter cb (GenericWrapper.env w))
      | S n =>
          GenericWrapper.World
            (<[id := GenericWrapper.ControlBlock n (GenericWrapper.deleter cb)]>
               (GenericWrapper.blocks w))
            (GenericWrapper.env w)
      end
  end.

(** The implicit destructor: the members go in the reverse order of
    their declaration, [tracker] first and [hMutex] after it. *)
Definition destroy (guard : t) (w : GenericWrapper.world lock_state)
    : GenericWrapper.world lock_state :=
  GenericWrapper.destroy (hMutex guard) (drop_block (tracker guard) w).

End Mutex.

End AcquireMutex.

(** ** A small machine to run the definitions on *)

Module Scenario.

Import Win32.

(** A foreign process, open under the handle [80], holds the string
    "ab" and its terminator at [4096]; nothing else of it can be read.
    The handle [68] is an open file. Fresh arrays are filled with
    [0xCD], as the debug heap does. *)
Definition foreign_bytes : list Z := [97; 98; 0].

Definition sample_remote_read (h base n : Z) : option (list Z) :=
  if (h =? 80) && (4096 <=? base) && (0 <=? n) && (base + n <=? 4099)
  then Some (take (Z.to_nat n) (drop (Z.to_nat (base - 4096)) foreign_bytes))
  else None.

Definition sample_kernel : Kernel := {|
  file_information := fun _ h =>
    if h =? 68 then None else if h =? 80 then Some 1 else Some 6;
  remote_read := fun _ => sample_remote_read;
  protect_local := fun _ _ _ _ => true;
  protect_remote := fun _ h _ _ _ => h =? 80;
  virtual_alloc := fun _ _ => 1048576;
  heap_alloc := fun _ _ => 65536;
  uninitialised := fun _ n => replicate (Z.to_nat n) (-51)
|}.

(** The local address space holds the bytes [1 2 3 0] at [8192] and
    [1 2 4 0] at [8200]. *)
Definition boot : os_state :=
  OsState (list_to_map [(8192, 1); (8193, 2); (8194, 3); (8195, 0);
                        (8200, 1); (8201, 2); (8202, 4); (8203, 0)])
          0 [].

Definition boot_world : GenericWrapper.world os_state :=
  GenericWrapper.World ∅ boot.

(** A release action that records the value it is called with. *)
Definition record_release (x : Z) (released : list Z) : list Z :=
  released ++ [x].

Definition log_world : GenericWrapper.world (list Z) :=
  GenericWrapper.World ∅ [].

(** [INT32], read little-endian out of four bytes. *)
Definition Pod_INT32 : Pod Z := {|
  sizeof := 4;
  of_bytes := fun bs =>
    Machine.to_int (foldr (fun b acc => b mod 256 + 256 * acc) 0 (take 4 bs))
|}.

End Scenario.

(** ** A second machine: nothing of a foreign process can be read, and
    fresh arrays hold the bytes [120 0 121 0] followed by zeros *)

Module Fixtures.

Import Win32.

Definition noisy_kernel : Kernel := {|
  file_information := fun _ _ => None;
  remote_read := fun _ _ _ _ => None;
  protect_local := fun _ _ _ _ => true;
  protect_remote := fun _ _ _ _ _ => false;
  virtual_alloc := fun _ _ => 1048576;
  heap_alloc := fun _ _ => 65536;
  uninitialised := fun _ _ => [120; 0; 121; 0]
|}.

(** The local address space holds the characters [0x0041 0x0142 0] at
    [12288], followed by one more byte. *)
Definition wide_boot : os_state :=
  OsState (list_to_map [(12288, 65); (12289, 0); (12290, 66); (12291, 1);
                        (12292, 0); (12293, 0); (12294, 7)])
          0 [].

(** A world with one mutex wrapper on the handle [52]. *)
Definition mutex_world : GenericWrapper.world AcquireMutex.lock_state :=
  snd (AcquireMutex.MutexType (H := Scenario.sample_kernel) 52
         (GenericWrapper.World ∅ (AcquireMutex.LockState Scenario.boot []))).

Definition mutex : GenericWrapper.t Z :=
  fst (AcquireMutex.MutexType (H := Scenario.sample_kernel) 52
         (GenericWrapper.World ∅ (AcquireMutex.LockState Scenario.boot []))).

Definition deallocation_world : AllocationOwner.world :=
  GenericWrapper.World ∅ [].

(** A third machine: as the second, but a fresh array holds zeros as
    long as no call has been made, and [120 0 121 0] after that. *)
Definition changing_kernel : Kernel := {|
  file_information := fun _ _ => None;
  remote_read := fun _ _ _ _ => None;
  protect_local := fun _ _ _ _ => true;
  protect_remote := fun _ _ _ _ _ => false;
  virtual_alloc := fun _ _ => 1048576;
  heap_alloc := fun _ _ => 65536;
  uninitialised := fun s _ =>
    match trace s with
    | [] => []
    | _ => [120; 0; 121; 0]
    end
|}.

(** Two regions of [2^31 + 1] bytes, at [2^32] and at [2^33]: all bytes
    are zero but the last byte of the second region. *)
Definition huge_size : Z := 2147483649.
Definition huge_a : Z := 4294967296.
Definition huge_b : Z := 8589934592.

Definition huge_mem : gmap Z Z :=
  <[huge_b + 2147483648 := 1]>
    (gset_to_gmap 0 (list_to_set (seqZ huge_a huge_size)
                     ∪ list_to_set (seqZ huge_b huge_size))).

End Fixtures.

(** * Properties *)

(** ** Integer conversions *)

(** The powers of two in bounds, as numerals for [lia]. *)
Ltac pow2 :=
  change (2 ^ 64) with 18446744073709551616 in *;
  change (2 ^ 32) with 4294967296 in *;
  change (2 ^ 31) with 2147483648 in *.

Lemma to_SIZE_T_small z : 0 <= z < 2 ^ 64 -> Machine.to_SIZE_T z = z.
Proof. intros Hz. unfold Machine.to_SIZE_T. now apply Z.mod_small. Qed.

Lemma to_DWORD_small z : 0 <= z < 2 ^ 32 -> Machine.to_DWORD z = z.
Proof. intros Hz. unfold Machine.to_DWORD. now apply Z.mod_small. Qed.

Lemma to_int_small z : - 2 ^ 31 <= z < 2 ^ 31 -> Machine.to_int z = z.
Proof. intros Hz. unfold Machine.to_int. rewrite Z.mod_small; lia. Qed.

Lemma to_SIZE_T_negative z : - 2 ^ 31 <= z < 0 -> Machine.to_SIZE_T z = z + 2 ^ 64.
Proof.
  intros Hz. unfold Machine.to_SIZE_T.
  replace z with (z + 2 ^ 64 + (-1) * 2 ^ 64) at 1 by lia.
  rewrite Z.mod_add by lia. apply Z.mod_small. lia.
Qed.

Lemma min_spec a b : Machine.min a b = Z.min a b.
Proof. unfold Machine.min. destruct (Z.ltb_spec a b); lia. Qed.

(** ** GenericWrapper *)

Section GenericWrapperFacts.

Import GenericWrapper.

Context {T : Type} `{Resource T} {E : Type}.

Implicit Types (g : t T) (w : world E) (l : list (step (T := T))) (d : E -> E).

Lemma release_closure_releasable (object : T) (freeFunction : T -> E -> E)
    (bad : option T) (e : E) :
  release_closure object freeFunction bad e =
  if releasable object bad then freeFunction object e else e.
Proof.
  unfold release_closure, releasable, eq_optional, truthy.
  destruct bad as [b|]; repeat case_bool_decide; simpl; try reflexivity;
    try congruence.
  all: exfalso; match goal with Hn : ¬ is_Some _ |- _ => apply Hn; eauto end.
Qed.

Lemma construct_block (object : T) (freeFunction : T -> E -> E)
    (bad : option T) w :
  let gw := construct object freeFunction bad w in
  blocks (snd gw) !! ReferenceCounter (fst gw) =
    Some (ControlBlock 1 (release_closure object freeFunction bad))
  /\ env (snd gw) = env w.
Proof. simpl. split; [apply lookup_insert_eq | reflexivity]. Qed.

(** While owners remain the environment is untouched; the step that
    destroys the last owner runs the deleter, once. *)
Lemma run_owners (id : nat) l : forall w n d k,
  Forall (fun s => ReferenceCounter (subject s) = id) l ->
  blocks w !! id = Some (ControlBlock (S n) d) ->
  owners (S n) l = Some k ->
  match k with
  | O => blocks (run l w) !! id = None /\ env (run l w) = d (env w)
  | S k' => blocks (run l w) !! id = Some (ControlBlock k d)
            /\ env (run l w) = env w
  end.
Proof.
  induction l as [|s l IH]; intros w n d k Hsh Hb Ho.
  - simpl in Ho. injection Ho as <-. simpl. auto.
  - apply Forall_cons in Hsh as [Hs Hsh]. simpl in Ho.
    destruct s as [g|g]; simpl in Hs; subst id.
    + change (run (Copy g :: l) w) with (run l (snd (copy g w))).
      assert (Hb' : blocks (snd (copy g w)) !! ReferenceCounter g
                    = Some (ControlBlock (S (S n)) d)).
      { simpl. rewrite lookup_alter_eq, Hb. reflexivity. }
      exact (IH _ (S n) d k Hsh Hb' Ho).
    + change (run (Drop g :: l) w) with (run l (destroy g w)).
      destruct n as [|n].
      * destruct l as [|s' l']; [|simpl in Ho; discriminate].
        simpl in Ho. injection Ho as <-.
        unfold run, destroy. simpl. rewrite Hb. simpl.
        split; [apply lookup_delete_eq | reflexivity].
      * assert (Hd : destroy g w
                     = World (<[ReferenceCounter g := ControlBlock (S n) d]> (blocks w))
                             (env w)).
        { unfold destroy. rewrite Hb. reflexivity. }
        rewrite Hd.
        assert (Hb' : blocks (World (<[ReferenceCounter g := ControlBlock (S n) d]>
                                        (blocks w)) (env w)) !! ReferenceCounter g
                      = Some (ControlBlock (S n) d)) by apply lookup_insert_eq.
        exact (IH _ n d k Hsh Hb' Ho).
Qed.

Lemma owners_app (n : nat) l1 l2 (k : nat) :
  owners n (l1 ++ l2) = Some k ->
  exists m, owners n l1 = Some m /\ owners m l2 = Some k.
Proof.
  revert n. induction l1 as [|s l1 IH]; intros n Ho; simpl in *.
  - eauto.
  - destruct n as [|n]; [discriminate|]. apply IH. exact Ho.
Qed.

Lemma owners_zero l (k : nat) : owners 0 l = Some k -> l = [] /\ k = 0%nat.
Proof. destruct l; simpl; intros Ho; [injection Ho as <-; auto | discriminate]. Qed.

(** X23. The release action of an acquisition is decided by the value
    given to the constructor and runs when the last owner is destroyed,
    at no other time: after the constructor, let wrapper objects that
    share the acquisition, whatever value each of them holds by then,
    be copied and destroyed in any order until no owner is left. Then
    the environment has seen the release action exactly once, applied
    to the value the constructor was given, when that value is neither
    null nor the sentinel, and not at all otherwise; and before the
    last destruction the environment is the one the constructor
    found. *)
Theorem release_once_at_last_owner (object : T) (freeFunction : T -> E -> E)
    (bad : option T) w l :
  let g := fst (construct object freeFunction bad w) in
  let w1 := snd (construct object freeFunction bad w) in
  owners_of g l ->
  owners 1 l = Some 0%nat ->
  env (run l w1) =
    (if releasable object bad then freeFunction object (env w) else env w)
  /\ forall l1 l2, l = l1 ++ l2 -> l2 <> [] -> env (run l1 w1) = env w.
Proof.
  intros g w1 Hsh Ho.
  destruct (construct_block object freeFunction bad w) as [Hb He].
  fold g w1 in Hb, He. split.
  - pose proof (run_owners _ l w1 0%nat _ 0%nat Hsh Hb Ho) as [_ Hr].
    rewrite Hr, He. apply release_closure_releasable.
  - intros l1 l2 -> Hne.
    apply Forall_app in Hsh as [Hsh1 _].
    apply owners_app in Ho as (m & H1 & H2).
    destruct m as [|m].
    + apply owners_zero in H2 as [-> _]. congruence.
    + pose proof (run_owners _ l1 w1 0%nat _ (S m) Hsh1 Hb H1) as [_ Hr].
      simpl in Hr. congruence.
Qed.

(** [Release] changes the member [WrappedObject] and nothing else: the
    deleter of the control block has its own copy of the value. *)
Lemma Release_then_destroy (object : T) (freeFunction : T -> E -> E)
    (bad : option T) w :
  let g := fst (construct object freeFunction bad w) in
  let w1 := snd (construct object freeFunction bad w) in
  fst (Release g) = object
  /\ WrappedObject (snd (Release g)) = default null bad
  /\ env (destroy (snd (Release g)) w1) =
     (if releasable object bad then freeFunction object (env w) else env w).
Proof.
  intros g w1. repeat split.
  unfold destroy. simpl. rewrite lookup_insert_eq. simpl.
  apply release_closure_releasable.
Qed.

End GenericWrapperFacts.

(** ** HandleWrapper *)

Section HandleWrapperFacts.

Import Win32 HandleWrapper.

Context `{Kernel}.

Lemma HRESULT_of_DWORD_invalid_handle (e : Z) :
  Machine.to_int (Machine.to_DWORD e) = ERROR_INVALID_HANDLE
  <-> Machine.to_DWORD e = ERROR_INVALID_HANDLE.
Proof.
  unfold Machine.to_int, Machine.to_DWORD, ERROR_INVALID_HANDLE.
  change (2 ^ 32) with 4294967296. change (2 ^ 31) with 2147483648.
  pose proof (Z.mod_pos_bound e 4294967296 ltac:(lia)) as Hb.
  set (x := e mod 4294967296) in *. clearbody x.
  destruct (Z_lt_dec x 2147483648).
  - rewrite Z.mod_small by lia. lia.
  - replace (x + 2147483648) with (x - 2147483648 + 1 * 4294967296) by lia.
    rewrite Z.mod_add by lia. rewrite Z.mod_small by lia. lia.
Qed.

Lemma SafeCloseHandle_trace (handle : Z) (s : os_state) :
  trace (SafeCloseHandle handle s) =
  trace s ++ GetFileInformationByHandle_call handle ::
    match file_information s handle with
    | None => [CloseHandle_call handle]
    | Some e =>
        if bool_decide (Machine.to_DWORD e = ERROR_INVALID_HANDLE)
        then [] else [CloseHandle_call handle]
    end.
Proof.
  unfold SafeCloseHandle, GetFileInformationByHandle.
  destruct (file_information s handle) as [e|]; simpl.
  - unfold GetLastError. simpl.
    case_bool_decide as He.
    + apply HRESULT_of_DWORD_invalid_handle in He. rewrite He. reflexivity.
    + destruct (Z.eqb_spec (Machine.to_int (Machine.to_DWORD e)) ERROR_INVALID_HANDLE)
        as [Ha|Ha]; simpl.
      * apply HRESULT_of_DWORD_invalid_handle in Ha. contradiction.
      * rewrite <- app_assoc. reflexivity.
  - rewrite <- app_assoc. reflexivity.
Qed.

(** C4. When the last owner of a handle that is neither null nor
    [INVALID_HANDLE_VALUE] is destroyed, the handle is probed once; the
    close is left out when the probe fails with [ERROR_INVALID_HANDLE],
    and made when the probe succeeds or fails with any other code. *)
Theorem SafeCloseHandle_skips_only_invalid_handle (handle : Z)
    (w : GenericWrapper.world os_state) (l : list GenericWrapper.step) :
  let g := fst (construct handle w) in
  let w1 := snd (construct handle w) in
  let s := GenericWrapper.env w in
  let s' := GenericWrapper.env (GenericWrapper.run l w1) in
  handle <> 0 ->
  handle <> INVALID_HANDLE_VALUE ->
  GenericWrapper.owners_of g l ->
  GenericWrapper.owners 1 l = Some 0%nat ->
  (file_information s handle = None ->
     trace s' = trace s ++ [GetFileInformationByHandle_call handle;
                            CloseHandle_call handle])
  /\ (forall e, file_information s handle = Some e ->
        Machine.to_DWORD e <> ERROR_INVALID_HANDLE ->
        trace s' = trace s ++ [GetFileInformationByHandle_call handle;
                               CloseHandle_call handle])
  /\ (forall e, file_information s handle = Some e ->
        Machine.to_DWORD e = ERROR_INVALID_HANDLE ->
        trace s' = trace s ++ [GetFileInformationByHandle_call handle]).
Proof.
  intros g w1 s s' Hnull Hbad Hsh Ho.
  assert (Hs' : s' = SafeCloseHandle handle s).
  { destruct (construct_block handle SafeCloseHandle (Some INVALID_HANDLE_VALUE) w)
      as [Hb He].
    pose proof (run_owners _ l w1 0%nat _ 0%nat Hsh Hb Ho) as [_ Hr].
    change (GenericWrapper.env w1 = s) in He.
    subst s'. rewrite Hr, He.
    rewrite release_closure_releasable. unfold GenericWrapper.releasable.
    rewrite !bool_decide_eq_false_2; [reflexivity | congruence | exact Hnull]. }
  rewrite Hs', SafeCloseHandle_trace.
  repeat split.
  - intros ->. reflexivity.
  - intros e -> Hne. rewrite bool_decide_eq_false_2 by exact Hne. reflexivity.
  - intros e -> He. rewrite bool_decide_eq_true_2 by exact He. reflexivity.
Qed.

End HandleWrapperFacts.

(** ** AllocationWrapper *)

Section AllocationWrapperFacts.

Import Win32 AllocationWrapper.

Implicit Types (m : gmap Z Z) (a b : t).

Lemma load_bytes_length m p n bs :
  load_bytes m p n = Some bs -> length bs = n.
Proof.
  revert p bs. induction n as [|n IH]; intros p bs; simpl.
  - intros [= <-]. reflexivity.
  - destruct (m !! p); [|discriminate].
    destruct (load_bytes m (p + 1) n) eqn:Hl; [|discriminate].
    intros [= <-]. simpl. f_equal. eauto.
Qed.

Lemma load_bytes_lookup m p n bs (i : nat) :
  load_bytes m p n = Some bs -> (i < n)%nat ->
  bs !! i = m !! (p + Z.of_nat i).
Proof.
  revert p bs i. induction n as [|n IH]; intros p bs i; simpl; [lia|].
  destruct (m !! p) as [x|] eqn:Hx; [|discriminate].
  destruct (load_bytes m (p + 1) n) eqn:Hl; [|discriminate].
  intros [= <-] Hi. destruct i as [|i]; simpl.
  - rewrite Z.add_0_r. symmetry. exact Hx.
  - rewrite (IH _ _ i Hl) by lia. f_equal. lia.
Qed.

Lemma load_bytes_mapped m p n :
  (forall i, 0 <= i < Z.of_nat n -> is_Some (m !! (p + i))) ->
  is_Some (load_bytes m p n).
Proof.
  revert p. induction n as [|n IH]; intros p Hm; simpl; [eauto|].
  destruct (Hm 0 ltac:(lia)) as [x Hx]. rewrite Z.add_0_r in Hx. rewrite Hx.
  destruct (IH (p + 1)) as [bs Hbs].
  - intros i Hi. replace (p + 1 + i) with (p + (i + 1)) by lia. apply Hm. lia.
  - rewrite Hbs. eauto.
Qed.

(** C7. An index that is not below the size reads as the zero byte,
    whatever the allocation and whatever the memory holds; an index
    below the size of an allocation with backing memory reads the byte
    at that offset from [pointer]. *)
Theorem op_index_checked m a (i : Z) :
  0 <= AllocationSize a ->
  - 2 ^ 31 <= i < 2 ^ 31 ->
  (AllocationSize a <= i -> op_index m a i = Some 0)
  /\ (0 <= i < AllocationSize a -> has_value a = true -> backed m a ->
      op_index m a i = m !! (pointer a + i) /\ is_Some (m !! (pointer a + i))).
Proof.
  intros Hsize Hi. unfold op_index. split.
  - intros Hge. rewrite to_SIZE_T_small by lia.
    destruct (Z.ltb_spec i (AllocationSize a)); [lia|].
    rewrite andb_false_r. reflexivity.
  - intros Hlt Hv Hb. rewrite Hv, to_SIZE_T_small by lia.
    destruct (Z.ltb_spec i (AllocationSize a)); [|lia].
    simpl. split; [reflexivity | apply Hb; assumption].
Qed.

(** C8. The typed read is empty exactly when the type is larger than
    the declared size or there is no backing memory; otherwise it is the
    value of the first [sizeof] bytes at [pointer]. *)
Theorem Dereference_checked {T : Type} `{Pod T} m a :
  0 <= sizeof ->
  backed m a ->
  (Dereference m a = Some None
   <-> AllocationSize a < sizeof \/ has_value a = false)
  /\ (sizeof <= AllocationSize a -> has_value a = true ->
      exists bs, load_bytes m (pointer a) (Z.to_nat sizeof) = Some bs
                 /\ Z.of_nat (length bs) = sizeof
                 /\ Dereference m a = Some (Some (of_bytes bs))).
Proof.
  intros Hs Hb. unfold Dereference.
  destruct (Z.ltb_spec (AllocationSize a) sizeof) as [Hlt|Hge]; simpl.
  - split; [tauto | lia].
  - destruct (has_value a) eqn:Hv; simpl.
    + destruct (load_bytes_mapped m (pointer a) (Z.to_nat sizeof)) as [bs Hbs].
      { intros i Hi. apply Hb; [exact Hv | lia]. }
      rewrite Hbs. split.
      * split; [discriminate | intros [?|?]; [lia | discriminate]].
      * intros _ _. exists bs. repeat split.
        apply load_bytes_length in Hbs. lia.
    + split; [tauto | discriminate].
Qed.

Lemma compare_loop_spec m a b :
  has_value b = true ->
  AllocationSize b = AllocationSize a ->
  AllocationSize a <= Machine.INT_MAX ->
  backed m a -> backed m b -> has_value a = true ->
  forall (fuel : nat) (i : Z),
    0 <= i <= AllocationSize a ->
    (Z.to_nat (AllocationSize a - i) <= fuel)%nat ->
    exists r, compare_loop m a b fuel i = Some r
      /\ (r = true <->
          forall j, i <= j < AllocationSize a ->
                    m !! (pointer a + j) = m !! (pointer b + j)).
Proof.
  intros Hvb Hsz Hmax Hba Hbb Hva.
  assert (Hint : Machine.INT_MAX = 2147483647) by reflexivity.
  induction fuel as [|fuel IH]; intros i Hi Hf.
  - assert (i = AllocationSize a) as -> by lia.
    simpl. rewrite to_SIZE_T_small by (change (2 ^ 64) with 18446744073709551616; lia).
    rewrite Z.ltb_irrefl. exists true. split; [reflexivity|].
    split; [intros _ j Hj; lia | reflexivity].
  - simpl. rewrite to_SIZE_T_small by (change (2 ^ 64) with 18446744073709551616; lia).
    destruct (Z.ltb_spec i (AllocationSize a)) as [Hlt|Hge].
    + destruct (Hba Hva i ltac:(lia)) as [p Hp].
      destruct (Hbb Hvb i ltac:(lia)) as [q Hq].
      assert (Hidx : op_index m b i = Some q).
      { unfold op_index. rewrite Hvb, Hsz.
        rewrite to_SIZE_T_small by (change (2 ^ 64) with 18446744073709551616; lia).
        destruct (Z.ltb_spec i (AllocationSize a)); [exact Hq | lia]. }
      rewrite Hp, Hidx.
      destruct (Z.eqb_spec p q) as [Hpq|Hpq]; simpl.
      * destruct (Z.eqb_spec i Machine.INT_MAX); [lia|].
        destruct (IH (i + 1) ltac:(lia) ltac:(lia)) as (r & Hr & Hiff).
        exists r. split; [exact Hr|]. rewrite Hiff. split.
        -- intros Hall j Hj. destruct (Z.eq_dec j i) as [->|];
             [congruence | apply Hall; lia].
        -- intros Hall j Hj. apply Hall. lia.
      * exists false. split; [reflexivity|]. split; [discriminate|].
        intros Hall. specialize (Hall i ltac:(lia)). congruence.
    + exists true. split; [reflexivity|]. split; [intros _ j Hj; lia | reflexivity].
Qed.

(** X22. Comparing allocations of at most [INT_MAX] bytes: an
    allocation equals itself; two allocations without backing memory
    are equal; one with and one without are not; two with backing
    memory and different sizes are not, whatever their bytes; and two
    with backing memory are equal exactly when their sizes are the same
    and every byte is. The bound is needed where the loop runs: its
    counter is an [int]. *)
Theorem CompareMemory_characterised m a b :
  (0 <= AllocationSize a <= Machine.INT_MAX -> backed m a ->
   CompareMemory m a a = Some true)
  /\ (has_value a = false -> has_value b = false ->
      CompareMemory m a b = Some true)
  /\ (has_value a <> has_value b -> CompareMemory m a b = Some false)
  /\ (has_value a = true -> has_value b = true ->
      AllocationSize a <> AllocationSize b ->
      CompareMemory m a b = Some false)
  /\ (has_value a = true -> has_value b = true ->
      0 <= AllocationSize a <= Machine.INT_MAX ->
      backed m a -> backed m b ->
      exists r, CompareMemory m a b = Some r
        /\ (r = true <->
            AllocationSize a = AllocationSize b
            /\ forall j, 0 <= j < AllocationSize a ->
                         m !! (pointer a + j) = m !! (pointer b + j))).
Proof.
  assert (Hboth : forall c, 0 <= AllocationSize a <= Machine.INT_MAX ->
            backed m a -> backed m c ->
            has_value a = true -> has_value c = true ->
            exists r, CompareMemory m a c = Some r
              /\ (r = true <->
                  AllocationSize a = AllocationSize c
                  /\ forall j, 0 <= j < AllocationSize a ->
                               m !! (pointer a + j) = m !! (pointer c + j))).
  { intros c Hsa Hba Hbc Hva Hvc. unfold CompareMemory, op_bool.
    rewrite Hva, Hvc. simpl.
    destruct (Z.eqb_spec (AllocationSize c) (AllocationSize a)) as [Heq|Hne].
    - destruct (compare_loop_spec m a c Hvc Heq ltac:(lia) Hba Hbc Hva
                  (Z.to_nat (AllocationSize a)) 0 ltac:(lia) ltac:(lia))
        as (r & Hr & Hiff).
      exists r. split; [exact Hr|]. rewrite Hiff. split; [auto | tauto].
    - exists false. split; [reflexivity|].
      split; [discriminate | intros [? _]; congruence]. }
  split; [|split; [|split; [|split]]].
  - intros Hsa Hba. destruct (has_value a) eqn:Hva.
    + destruct (Hboth a Hsa Hba Hba eq_refl Hva) as (r & Hr & Hiff).
      rewrite Hr. f_equal. apply Hiff. split; [reflexivity | auto].
    + unfold CompareMemory, op_bool. rewrite Hva. reflexivity.
  - intros Hva Hvb. unfold CompareMemory, op_bool. rewrite Hva, Hvb. reflexivity.
  - intros Hne. unfold CompareMemory, op_bool.
    destruct (has_value a), (has_value b); simpl; congruence.
  - intros Hva Hvb Hne. unfold CompareMemory, op_bool. rewrite Hva, Hvb. simpl.
    destruct (Z.eqb_spec (AllocationSize b) (AllocationSize a)); congruence.
  - intros Hva Hvb Hsa Hba Hbb. exact (Hboth b Hsa Hba Hbb Hva Hvb).
Qed.

End AllocationWrapperFacts.

(** ** MemoryWrapper *)

Section MemoryWrapperFacts.

Import Win32 MemoryWrapper.

Context `{Kernel} {T : Type} `{Pod T}.

Implicit Types (v : t T) (s : os_state) (w : GenericWrapper.world os_state).

Lemma construct_fields (base size h : Z) w :
  address (fst (construct base size h w)) = base
  /\ MemorySize (fst (construct base size h w)) = size
  /\ handle (fst (construct base size h w)) = h
  /\ GenericWrapper.BadValue (process (fst (construct base size h w)))
     = Some INVALID_HANDLE_VALUE.
Proof. repeat split. Qed.

(** C5. [GetOffset(k)] of a view of [s] bytes at [a], the viewed bytes
    lying inside the address space: below [s] the result is the view of
    [s - k] bytes at [a + k] on the same process handle; at [s] it has
    size zero; beyond [s] it is the view of no bytes at the null
    address. *)
Theorem GetOffset_shifts_or_empties v (k : Z) w :
  0 <= address v ->
  0 <= MemorySize v < 2 ^ 64 ->
  address v + MemorySize v <= 2 ^ 64 ->
  0 <= k ->
  let v' := fst (GetOffset v k w) in
  (k < MemorySize v ->
     address v' = address v + k
     /\ MemorySize v' = MemorySize v - k
     /\ handle v' = handle v)
  /\ (k = MemorySize v -> MemorySize v' = 0)
  /\ (MemorySize v < k -> address v' = 0 /\ MemorySize v' = 0).
Proof.
  intros Ha Hs Hfit Hk v'. subst v'. unfold GetOffset.
  destruct (Z.gtb_spec k (MemorySize v)) as [Hgt|Hle].
  - destruct (construct_fields 0 0 (handle v) w) as (-> & -> & _).
    repeat split; lia.
  - destruct (construct_fields (Machine.to_SIZE_T (address v + k))
                (Machine.to_SIZE_T (MemorySize v - k)) (handle v) w)
      as (-> & -> & -> & _).
    split; [|split].
    + intros Hlt. repeat split; apply to_SIZE_T_small; pow2; lia.
    + intros ->. rewrite Z.sub_diag. reflexivity.
    + lia.
Qed.

(** A foreign read that succeeds ends the loop of [ReadString] before
    anything is looked at: the string returned is empty. *)
Lemma ReadString_after_successful_read (fuel : nat) v s (bs : list Z) :
  GenericWrapper.op_not (process v) = false ->
  let n := Machine.to_SIZE_T (Machine.to_int
             (Machine.min (Machine.to_SIZE_T (Machine.to_int (10 * 2)))
                          (MemorySize v))) in
  remote_read s (handle v) (address v) n = Some bs ->
  length bs = Z.to_nat n ->
  ReadString (S fuel) v s
  = Returns [] (log (ReadProcessMemory_call (handle v) (address v) n) s).
Proof.
  intros Hforeign n Hread Hlen. unfold ReadString. rewrite Hforeign.
  cbn [read_loop]. unfold ReadProcessMemory. fold n. rewrite Hread.
  rewrite bool_decide_eq_true_2 by exact Hlen. reflexivity.
Qed.

(** *** Runs of bytes *)

Lemma lookup_store_bytes_outside (m : gmap Z Z) (p : Z) (bs : list Z) (a : Z) :
  a < p \/ p + Z.of_nat (length bs) <= a ->
  store_bytes m p bs !! a = m !! a.
Proof.
  revert m p. induction bs as [|b bs IH]; intros m p Ha; simpl; [reflexivity|].
  rewrite IH by (simpl in Ha; lia).
  apply lookup_insert_ne. simpl in Ha. lia.
Qed.

Lemma load_store_bytes (m : gmap Z Z) (p : Z) (bs : list Z) :
  load_bytes (store_bytes m p bs) p (length bs) = Some bs.
Proof.
  revert m p. induction bs as [|b bs IH]; intros m p; simpl; [reflexivity|].
  rewrite lookup_store_bytes_outside by lia.
  rewrite lookup_insert_eq, IH. reflexivity.
Qed.

Lemma load_bytes_ext (m1 m2 : gmap Z Z) (a : Z) (n : nat) :
  (forall i, 0 <= i < Z.of_nat n -> m1 !! (a + i) = m2 !! (a + i)) ->
  load_bytes m1 a n = load_bytes m2 a n.
Proof.
  revert a. induction n as [|n IH]; intros a Hext; simpl; [reflexivity|].
  pose proof (Hext 0 ltac:(lia)) as Hfirst. rewrite Z.add_0_r in Hfirst.
  rewrite Hfirst.
  rewrite (IH (a + 1)); [reflexivity|].
  intros i Hi. replace (a + 1 + i) with (a + (i + 1)) by lia. apply Hext. lia.
Qed.

Lemma load_bytes_Some_mapped (m : gmap Z Z) (a : Z) (n : nat) (bs : list Z) :
  load_bytes m a n = Some bs ->
  forall i, 0 <= i < Z.of_nat n -> is_Some (m !! (a + i)).
Proof.
  intros Hl i Hi.
  pose proof (load_bytes_length _ _ _ _ Hl) as Hlen.
  pose proof (load_bytes_lookup m a n bs (Z.to_nat i) Hl ltac:(lia)) as Hi'.
  rewrite Z2Nat.id in Hi' by lia. rewrite <- Hi'.
  apply lookup_lt_is_Some. lia.
Qed.

Lemma allocate_mapped (p size : Z) s :
  p <> 0 ->
  mapped (mem (allocate p size s)) p (Z.to_nat size) = true.
Proof.
  intros Hp. unfold allocate, mapped.
  destruct (Z.eqb_spec p 0); [contradiction|]. simpl.
  apply bool_decide_eq_true_2.
  rewrite <- (length_replicate (Z.to_nat size) 0) at 2.
  rewrite load_store_bytes. eauto.
Qed.

Lemma allocate_trace (p size : Z) s : trace (allocate p size s) = trace s.
Proof. unfold allocate. destruct (p =? 0); reflexivity. Qed.

Lemma mapped_store (m : gmap Z Z) (p : Z) (n : nat) (bs : list Z) :
  length bs = n ->
  load_bytes (store_bytes m p bs) p n = Some bs.
Proof. intros <-. apply load_store_bytes. Qed.

(** *** [ToAllocationWrapper] *)

Lemma copy_size (v : t T) (n : Z) :
  0 <= n < 2 ^ 32 -> 0 <= MemorySize v < 2 ^ 64 ->
  Machine.to_DWORD (Machine.min (Machine.to_SIZE_T n) (MemorySize v))
  = Z.min n (MemorySize v).
Proof.
  intros Hn Hs. rewrite to_SIZE_T_small by (pow2; lia).
  rewrite min_spec. apply to_DWORD_small. pow2. lia.
Qed.

Lemma copy_into_local v (p size : Z) (ty : AllocationWrapper.AllocationFunction)
    (c : os_call) s (bs : list Z) :
  GenericWrapper.op_bool (process v) = false ->
  p <> 0 ->
  (forall i, 0 <= i < size -> mem s !! (p + i) = None) ->
  load_bytes (mem s) (address v) (Z.to_nat size) = Some bs ->
  exists s',
    copy_into v (AllocationWrapper.construct p size ty) size
              (allocate p size (log c s))
    = Returns (AllocationWrapper.construct p size ty) s'
    /\ load_bytes (mem s') p (Z.to_nat size) = Some bs
    /\ trace s' = trace s ++ [c].
Proof.
  intros Hlocal Hp Hfresh Hsrc. unfold copy_into. rewrite Hlocal.
  unfold MoveMemory, AllocationWrapper.op_LPVOID. simpl AllocationWrapper.pointer.
  assert (Hsame : load_bytes (mem (allocate p size (log c s))) (address v)
                    (Z.to_nat size) = Some bs).
  { rewrite <- Hsrc. apply load_bytes_ext. intros i Hi.
    unfold allocate. destruct (Z.eqb_spec p 0); [contradiction|]. simpl.
    apply lookup_store_bytes_outside. rewrite length_replicate.
    destruct (load_bytes_Some_mapped _ _ _ _ Hsrc i Hi) as [x Hx].
    destruct (Z_lt_dec (address v + i) p); [lia|].
    destruct (Z_le_dec (p + Z.of_nat (Z.to_nat size)) (address v + i)); [lia|].
    specialize (Hfresh (address v + i - p) ltac:(lia)).
    replace (p + (address v + i - p)) with (address v + i) in Hfresh by lia.
    congruence. }
  rewrite Hsame, (allocate_mapped p size _ Hp). simpl.
  eexists. split; [reflexivity|]. simpl. split.
  - apply mapped_store. apply (load_bytes_length _ _ _ _ Hsame).
  - apply allocate_trace.
Qed.

Lemma copy_into_remote v (p size : Z) (ty : AllocationWrapper.AllocationFunction)
    (c : os_call) s :
  GenericWrapper.op_bool (process v) = true ->
  let s1 := allocate p size (log c s) in
  (p <> 0 -> forall bs,
     remote_read s1 (handle v) (address v) size = Some bs ->
     length bs = Z.to_nat size ->
     exists s',
       copy_into v (AllocationWrapper.construct p size ty) size s1
       = Returns (AllocationWrapper.construct p size ty) s'
       /\ load_bytes (mem s') p (Z.to_nat size) = Some bs
       /\ trace s' = trace s ++ [c; ReadProcessMemory_call (handle v) (address v) size])
  /\ (remote_read s1 (handle v) (address v) size = None ->
      exists s',
        copy_into v (AllocationWrapper.construct p size ty) size s1
        = Returns (AllocationWrapper.construct 0 0 AllocationWrapper.STACK_ALLOC) s').
Proof.
  intros Hforeign s1. unfold copy_into. rewrite Hforeign.
  unfold ReadProcessMemory_at, ReadProcessMemory, AllocationWrapper.op_LPVOID.
  simpl AllocationWrapper.pointer. split.
  - intros Hp bs Hread Hlen. rewrite Hread.
    rewrite bool_decide_eq_true_2 by exact Hlen.
    change (mem (log (ReadProcessMemory_call (handle v) (address v) size) s1))
      with (mem s1).
    unfold s1 at 1. rewrite (allocate_mapped p size _ Hp).
    eexists. split; [reflexivity|]. simpl. split.
    + apply mapped_store. exact Hlen.
    + unfold s1. rewrite allocate_trace. simpl. rewrite <- app_assoc. reflexivity.
  - intros Hread. rewrite Hread. eexists. reflexivity.
Qed.

(** C9. [ToAllocationWrapper(n)] allocates [min(n, MemorySize)] bytes,
    from the page allocator when that is more than [0x8000] and from the
    heap otherwise, and returns the allocation that owns them. In the
    local context the bytes of the view are moved into it, with no call
    to the system but the allocation. In a foreign context they are
    read from the process, and a read that fails gives the allocation
    with no memory and size zero instead. *)
Theorem ToAllocationWrapper_copies v (n : Z) s :
  0 <= n < 2 ^ 32 ->
  0 <= MemorySize v < 2 ^ 64 ->
  let size := Z.min n (MemorySize v) in
  let page := size >? 32768 in
  let alloc := if page then VirtualAlloc size s else HeapAlloc size s in
  let p := fst alloc in
  let s1 := snd alloc in
  let wrapper :=
    AllocationWrapper.construct p size
      (if page then AllocationWrapper.VIRTUAL_ALLOC
       else AllocationWrapper.HEAP_ALLOC) in
  let call := if page then VirtualAlloc_call size else HeapAlloc_call size in
  (GenericWrapper.op_bool (process v) = false -> p <> 0 ->
   (forall i, 0 <= i < size -> mem s !! (p + i) = None) ->
   forall bs, load_bytes (mem s) (address v) (Z.to_nat size) = Some bs ->
   exists s', ToAllocationWrapper v n s = Returns wrapper s'
     /\ load_bytes (mem s') p (Z.to_nat size) = Some bs
     /\ trace s' = trace s ++ [call])
  /\ (GenericWrapper.op_bool (process v) = true -> p <> 0 ->
      forall bs, remote_read s1 (handle v) (address v) size = Some bs ->
      length bs = Z.to_nat size ->
      exists s', ToAllocationWrapper v n s = Returns wrapper s'
        /\ load_bytes (mem s') p (Z.to_nat size) = Some bs
        /\ trace s' = trace s
             ++ [call; ReadProcessMemory_call (handle v) (address v) size])
  /\ (GenericWrapper.op_bool (process v) = true ->
      remote_read s1 (handle v) (address v) size = None ->
      exists s', ToAllocationWrapper v n s
        = Returns (AllocationWrapper.construct 0 0 AllocationWrapper.STACK_ALLOC) s').
Proof.
  intros Hn Hs size page alloc p s1 wrapper call.
  unfold ToAllocationWrapper. rewrite (copy_size v n Hn Hs). fold size page.
  subst wrapper call s1 p alloc. destruct page; simpl.
  - split; [|split].
    + intros Hlocal Hp Hfresh bs Hsrc.
      exact (copy_into_local v _ size _ _ s bs Hlocal Hp Hfresh Hsrc).
    + intros Hforeign Hp bs Hread Hlen.
      exact (proj1 (copy_into_remote v _ size _ _ s Hforeign) Hp bs Hread Hlen).
    + intros Hforeign Hread.
      exact (proj2 (copy_into_remote v _ size _ _ s Hforeign) Hread).
  - split; [|split].
    + intros Hlocal Hp Hfresh bs Hsrc.
      exact (copy_into_local v _ size _ _ s bs Hlocal Hp Hfresh Hsrc).
    + intros Hforeign Hp bs Hread Hlen.
      exact (proj1 (copy_into_remote v _ size _ _ s Hforeign) Hp bs Hread Hlen).
    + intros Hforeign Hread.
      exact (proj2 (copy_into_remote v _ size _ _ s Hforeign) Hread).
Qed.

(** *** Which path a member function takes *)

Lemma HandleWrapper_op_not (h : Z) w :
  GenericWrapper.op_not (fst (HandleWrapper.construct h w)) = true
  <-> h = 0 \/ h = INVALID_HANDLE_VALUE.
Proof.
  unfold GenericWrapper.op_not, GenericWrapper.truthy, GenericWrapper.eq_optional.
  simpl. rewrite negb_involutive, orb_true_iff, !bool_decide_eq_true.
  split; (intros [?|?]; [left | right]); congruence.
Qed.

Lemma ReadProcessMemory_state (h base n : Z) s :
  snd (ReadProcessMemory h base n s) = log (ReadProcessMemory_call h base n) s.
Proof.
  unfold ReadProcessMemory.
  destruct (remote_read s h base n); [case_bool_decide|]; reflexivity.
Qed.

Lemma stays_local_refl s : stays_local s s.
Proof. exists []. split; [symmetry; apply app_nil_r | reflexivity]. Qed.

Lemma reaches_process_first (h base n : Z) (rest : list os_call) s s' :
  trace s' = trace s ++ ReadProcessMemory_call h base n :: rest ->
  reaches_process h s s'.
Proof.
  intros Htr. eexists. split; [exact Htr|]. simpl. rewrite Z.eqb_refl. reflexivity.
Qed.

Lemma read_c_string_state (fuel : nat) (a : Z) s :
  final_state (read_c_string fuel a s) = s.
Proof.
  revert a. induction fuel as [|fuel IH]; intros a; simpl; [reflexivity|].
  destruct (mem s !! a) as [c|]; [|reflexivity].
  destruct (c =? 0); [reflexivity|].
  specialize (IH (a + 1)).
  destruct (read_c_string fuel (a + 1) s); simpl in *; exact IH.
Qed.

Lemma read_loop_extends (fuel : nat) v : forall (idx maxIdx : Z) (memory : list Z) s,
  exists new,
    trace (final_state (read_loop fuel v idx maxIdx memory s)) = trace s ++ new.
Proof.
  induction fuel as [|fuel IH]; intros idx maxIdx memory s; simpl.
  - exists []. symmetry. apply app_nil_r.
  - match goal with |- context [ReadProcessMemory ?h ?b ?n s] =>
      pose proof (ReadProcessMemory_state h b n s) as Hst;
      destruct (ReadProcessMemory h b n s) as [r s'] end.
    simpl in Hst. subst s'. destruct r as [bs|].
    + eexists. reflexivity.
    + match goal with |- context [scan ?f ?i ?m ?mem ?st] =>
        destruct (scan f i m mem st) as [[[idx' memory'] valid]|] end.
      * destruct valid; [eexists; reflexivity|].
        match goal with |- context [read_loop fuel v idx' ?m memory' ?st] =>
          destruct (IH idx' m memory' st) as [new Hnew] end.
        eexists. rewrite Hnew. simpl. rewrite <- app_assoc. reflexivity.
      * eexists. reflexivity.
Qed.

Lemma read_loop_first_call (fuel : nat) v (idx maxIdx : Z) (memory : list Z) s :
  exists n rest,
    trace (final_state (read_loop (S fuel) v idx maxIdx memory s))
    = trace s ++ ReadProcessMemory_call (handle v) (address v) n :: rest.
Proof.
  simpl.
  match goal with |- context [ReadProcessMemory ?h ?b ?n s] =>
    pose proof (ReadProcessMemory_state h b n s) as Hst;
    destruct (ReadProcessMemory h b n s) as [r s'];
    exists n end.
  simpl in Hst. subst s'. destruct r as [bs|].
  - exists []. reflexivity.
  - match goal with |- context [scan ?f ?i ?m ?mem ?st] =>
      destruct (scan f i m mem st) as [[[idx' memory'] valid]|] end.
    + destruct valid; [exists []; reflexivity|].
      match goal with |- context [read_loop fuel v idx' ?m memory' ?st] =>
        destruct (read_loop_extends fuel v idx' m memory' st) as [new Hnew] end.
      exists new. rewrite Hnew. simpl. rewrite <- app_assoc. reflexivity.
    + exists []. reflexivity.
Qed.

Lemma copy_into_path v (wrapper : AllocationWrapper.t) (size : Z) s :
  (GenericWrapper.op_not (process v) = true ->
   trace (final_state (copy_into v wrapper size s)) = trace s)
  /\ (GenericWrapper.op_not (process v) = false ->
      exists rest,
        trace (final_state (copy_into v wrapper size s))
        = trace s ++ ReadProcessMemory_call (handle v) (address v) size :: rest).
Proof.
  unfold copy_into, GenericWrapper.op_bool. split; intros ->; simpl.
  - unfold MoveMemory.
    destruct (load_bytes _ _ _); [destruct (mapped _ _ _)|]; reflexivity.
  - unfold ReadProcessMemory_at.
    pose proof (ReadProcessMemory_state (handle v) (address v) size s) as Hst.
    destruct (ReadProcessMemory (handle v) (address v) size s) as [r s'].
    simpl in Hst. subst s'. unfold free_allocation.
    destruct r as [bs|]; [destruct (mapped _ _ _)|];
      try (exists []; reflexivity);
      destruct (AllocationWrapper.Memory wrapper) as [[q []]|]; simpl;
      try (exists []; reflexivity);
      rewrite <- app_assoc; eexists; reflexivity.
Qed.

Lemma ToAllocationWrapper_path v (n : Z) s :
  (GenericWrapper.op_not (process v) = true ->
   stays_local s (final_state (ToAllocationWrapper v n s)))
  /\ (GenericWrapper.op_not (process v) = false ->
      reaches_process (handle v) s (final_state (ToAllocationWrapper v n s))).
Proof.
  unfold ToAllocationWrapper.
  set (size := Machine.to_DWORD _).
  destruct (size >? 32768); simpl;
    match goal with |- context [copy_into _ ?wr _ ?st] =>
      destruct (copy_into_path v wr size st) as [Hl Hr] end;
    (split; intros Hp;
     [ specialize (Hl Hp); eexists; split;
       [rewrite Hl, allocate_trace; simpl; reflexivity | reflexivity]
     | destruct (Hr Hp) as [rest Hrest]; eexists; split;
       [ rewrite Hrest, allocate_trace; simpl; rewrite <- app_assoc; reflexivity
       | simpl; rewrite Z.eqb_refl; reflexivity ] ]).
Qed.

Lemma access_runs_local (fuel : nat) (protections size n : Z) v s :
  GenericWrapper.op_not (process v) = true ->
  Forall (stays_local s) (access_runs fuel protections size n v s).
Proof.
  intros Hlocal. unfold access_runs.
  constructor; [|constructor; [|constructor; [|constructor; [|constructor;
    [|constructor]]]]].
  - unfold Dereference. rewrite Hlocal.
    destruct (load_bytes _ _ _); apply stays_local_refl.
  - unfold op_arrow. rewrite Hlocal. apply stays_local_refl.
  - unfold Protect. rewrite Hlocal. simpl. eexists. split; reflexivity.
  - unfold ReadString. rewrite Hlocal, read_c_string_state. apply stays_local_refl.
  - apply ToAllocationWrapper_path. exact Hlocal.
Qed.

Lemma access_runs_foreign (fuel : nat) (protections size n : Z) v s :
  GenericWrapper.op_not (process v) = false ->
  Forall (reaches_process (handle v) s)
         (access_runs (S fuel) protections size n v s).
Proof.
  intros Hforeign. unfold access_runs.
  constructor; [|constructor; [|constructor; [|constructor; [|constructor;
    [|constructor]]]]].
  - unfold Dereference. rewrite Hforeign.
    pose proof (ReadProcessMemory_state (handle v) (address v) sizeof s) as Hst.
    destruct (ReadProcessMemory (handle v) (address v) sizeof s) as [[bs|] s'];
      simpl in *; subst s'; eapply reaches_process_first; reflexivity.
  - unfold op_arrow. rewrite Hforeign.
    pose proof (ReadProcessMemory_state (handle v) (address v) sizeof s) as Hst.
    destruct (ReadProcessMemory (handle v) (address v) sizeof s) as [[bs|] s'];
      simpl in *; subst s'; eapply reaches_process_first; reflexivity.
  - unfold Protect. rewrite Hforeign. simpl. eexists. split; [reflexivity|].
    simpl. rewrite Z.eqb_refl. reflexivity.
  - unfold ReadString. rewrite Hforeign.
    match goal with |- context [read_loop (S fuel) v ?i ?m ?mem s] =>
      destruct (read_loop_first_call fuel v i m mem s) as (k & rest & Htr) end.
    eapply reaches_process_first. exact Htr.
  - apply ToAllocationWrapper_path. exact Hforeign.
Qed.

(** C10. A view takes the direct path in [Dereference], [operator->],
    [Protect], [ReadString] and [ToAllocationWrapper] exactly when the
    handle it was built with is null or [INVALID_HANDLE_VALUE]: then
    none of the five makes a call into another process, and with any
    other handle each of them makes a call into the process of that
    handle. The default process context, [GetCurrentProcess()], has the
    value of [INVALID_HANDLE_VALUE], so the view built with it is
    local. *)
Theorem local_path_iff_null_or_invalid (base size h : Z) w s (fuel : nat)
    (protections psize n : Z) :
  let v := fst (construct base size h w) in
  let v0 := fst (construct_default base w) in
  (h = 0 \/ h = INVALID_HANDLE_VALUE ->
     Forall (stays_local s) (access_runs (S fuel) protections psize n v s))
  /\ (h <> 0 -> h <> INVALID_HANDLE_VALUE ->
      Forall (reaches_process h s) (access_runs (S fuel) protections psize n v s))
  /\ GetCurrentProcess = INVALID_HANDLE_VALUE
  /\ Forall (stays_local s) (access_runs (S fuel) protections psize n v0 s).
Proof.
  intros v v0.
  assert (Hv : forall b z k, process (fst (construct b z k w))
                             = fst (HandleWrapper.construct k w)) by reflexivity.
  split; [|split; [|split]].
  - intros Hh. apply access_runs_local. subst v. rewrite Hv.
    apply HandleWrapper_op_not. exact Hh.
  - intros Hnull Hinv.
    change h with (handle v) at 1. apply access_runs_foreign.
    subst v. rewrite Hv.
    destruct (GenericWrapper.op_not (fst (HandleWrapper.construct h w))) eqn:Hop;
      [|reflexivity].
    apply HandleWrapper_op_not in Hop. tauto.
  - reflexivity.
  - apply access_runs_local. subst v0. unfold construct_default. rewrite Hv.
    apply HandleWrapper_op_not. right. reflexivity.
Qed.

End MemoryWrapperFacts.

(** ** The theorems at work on the small machine *)

Section Witnesses.

Import Win32 Scenario.

#[local] Existing Instance sample_kernel.

(** Three owners of the value [5], one of which has had the sentinel
    stored in it, destroyed one after the other: the release action sees
    [5] once, at the third destruction. *)
Lemma release_once_at_last_owner_witness :
  let c := GenericWrapper.construct 5 record_release (Some (-1)) log_world in
  let g := fst c in
  let released := GenericWrapper.store_through_address g (-1) in
  let l := [GenericWrapper.Copy g; GenericWrapper.Copy g; GenericWrapper.Drop g;
            GenericWrapper.Drop released; GenericWrapper.Drop g] in
  GenericWrapper.owners 1 l = Some 0%nat
  /\ GenericWrapper.env (GenericWrapper.run l (snd c)) = [5]
  /\ GenericWrapper.env (GenericWrapper.run (take 4 l) (snd c)) = [].
Proof.
  intros c g released l.
  assert (Hsh : GenericWrapper.owners_of g l)
    by (repeat constructor).
  destruct (release_once_at_last_owner 5 record_release (Some (-1)) log_world l
              Hsh eq_refl) as [Hlast Hbefore].
  split; [reflexivity|]. split.
  - exact Hlast.
  - exact (Hbefore (take 4 l) [GenericWrapper.Drop g] eq_refl ltac:(discriminate)).
Defined.

(** The file handle [68] is probed and closed; so is the process handle
    [80], for which the probe fails with another code; the stale handle
    [72], for which the probe reports [ERROR_INVALID_HANDLE], is only
    probed. *)
Lemma SafeCloseHandle_skips_only_invalid_handle_witness :
  let last_owner_gone h :=
    trace (GenericWrapper.env
             (GenericWrapper.run
                [GenericWrapper.Drop (fst (HandleWrapper.construct h boot_world))]
                (snd (HandleWrapper.construct h boot_world)))) in
  last_owner_gone 68 = [GetFileInformationByHandle_call 68; CloseHandle_call 68]
  /\ last_owner_gone 80 = [GetFileInformationByHandle_call 80; CloseHandle_call 80]
  /\ last_owner_gone 72 = [GetFileInformationByHandle_call 72].
Proof.
  intros last_owner_gone.
  assert (Hsh : forall h,
             GenericWrapper.owners_of (fst (HandleWrapper.construct h boot_world))
               [GenericWrapper.Drop (fst (HandleWrapper.construct h boot_world))])
    by (intros h; repeat constructor).
  split; [|split].
  - destruct (SafeCloseHandle_skips_only_invalid_handle 68 boot_world _
                ltac:(discriminate) ltac:(discriminate) (Hsh 68) eq_refl)
      as [Hok _].
    exact (Hok eq_refl).
  - destruct (SafeCloseHandle_skips_only_invalid_handle 80 boot_world _
                ltac:(discriminate) ltac:(discriminate) (Hsh 80) eq_refl)
      as (_ & Hother & _).
    exact (Hother 1 eq_refl ltac:(discriminate)).
  - destruct (SafeCloseHandle_skips_only_invalid_handle 72 boot_world _
                ltac:(discriminate) ltac:(discriminate) (Hsh 72) eq_refl)
      as (_ & _ & Hskip).
    exact (Hskip 6 eq_refl eq_refl).
Defined.

Lemma boot_backed (p size : Z) (ty : AllocationWrapper.AllocationFunction) :
  (p = 8192 \/ p = 8200) -> 0 <= size <= 4 ->
  AllocationWrapper.backed (mem boot) (AllocationWrapper.construct p size ty).
Proof.
  intros Hp Hsize _ i Hi. simpl in *.
  assert (Hcases : i = 0 \/ i = 1 \/ i = 2 \/ i = 3) by lia.
  destruct Hp as [-> | ->]; destruct Hcases as [-> | [-> | [-> | ->]]];
    vm_compute; eauto.
Defined.

(** The allocation of the four bytes at [8192]: index 4 and beyond read
    as zero, index 2 reads the third byte. *)
Lemma op_index_checked_witness :
  let a := AllocationWrapper.construct 8192 4 AllocationWrapper.STACK_ALLOC in
  AllocationWrapper.op_index (mem boot) a 4 = Some 0
  /\ AllocationWrapper.op_index (mem boot) a 2 = Some 3.
Proof.
  intros a. split.
  - destruct (op_index_checked (mem boot) a 4 ltac:(simpl; lia) ltac:(lia))
      as [Hout _].
    apply Hout. simpl. lia.
  - destruct (op_index_checked (mem boot) a 2 ltac:(simpl; lia) ltac:(lia))
      as [_ Hin].
    destruct (Hin ltac:(simpl; lia) eq_refl
                (boot_backed 8192 4 _ (or_introl eq_refl) ltac:(lia))) as [Hr _].
    rewrite Hr. reflexivity.
Defined.

(** A four-byte integer is read out of the four bytes at [8192] and
    not out of the first three of them. *)
Lemma Dereference_checked_witness :
  let a := AllocationWrapper.construct 8192 4 AllocationWrapper.STACK_ALLOC in
  let b := AllocationWrapper.construct 8192 3 AllocationWrapper.STACK_ALLOC in
  AllocationWrapper.Dereference (H := Pod_INT32) (mem boot) a = Some (Some 197121)
  /\ AllocationWrapper.Dereference (H := Pod_INT32) (mem boot) b = Some None.
Proof.
  intros a b. split.
  - destruct (Dereference_checked (H := Pod_INT32) (mem boot) a ltac:(simpl; lia)
                (boot_backed 8192 4 _ (or_introl eq_refl) ltac:(lia)))
      as [_ Hvalue].
    destruct (Hvalue ltac:(simpl; lia) eq_refl) as (bs & Hbs & _ & Hd).
    rewrite Hd. vm_compute in Hbs. injection Hbs as <-. reflexivity.
  - destruct (Dereference_checked (H := Pod_INT32) (mem boot) b ltac:(simpl; lia)
                (boot_backed 8192 3 _ (or_introl eq_refl) ltac:(lia)))
      as [Hempty _].
    apply Hempty. left. simpl. lia.
Defined.

(** The bytes at [8192] and at [8200] differ in the third place: as
    allocations of two bytes they are equal, as allocations of three
    they are not, and neither are allocations of two and of three. *)
Lemma CompareMemory_characterised_witness :
  let a2 := AllocationWrapper.construct 8192 2 AllocationWrapper.STACK_ALLOC in
  let b2 := AllocationWrapper.construct 8200 2 AllocationWrapper.STACK_ALLOC in
  let a3 := AllocationWrapper.construct 8192 3 AllocationWrapper.STACK_ALLOC in
  let e := AllocationWrapper.construct 0 2 AllocationWrapper.STACK_ALLOC in
  AllocationWrapper.CompareMemory (mem boot) a2 a2 = Some true
  /\ AllocationWrapper.CompareMemory (mem boot) e a2 = Some false
  /\ AllocationWrapper.CompareMemory (mem boot) a2 a3 = Some false
  /\ exists r, AllocationWrapper.CompareMemory (mem boot) a2 b2 = Some r
       /\ (r = true <->
           2 = 2 /\ forall j, 0 <= j < 2 ->
                      mem boot !! (8192 + j) = mem boot !! (8200 + j)).
Proof.
  intros a2 b2 a3 e.
  assert (Hint : 0 <= 2 <= Machine.INT_MAX) by (unfold Machine.INT_MAX; lia).
  pose proof (boot_backed 8192 2 AllocationWrapper.STACK_ALLOC
                (or_introl eq_refl) ltac:(lia)) as Ha.
  pose proof (boot_backed 8200 2 AllocationWrapper.STACK_ALLOC
                (or_intror eq_refl) ltac:(lia)) as Hb.
  split; [|split; [|split]].
  - destruct (CompareMemory_characterised (mem boot) a2 b2) as [Hrefl _].
    exact (Hrefl Hint Ha).
  - destruct (CompareMemory_characterised (mem boot) e a2)
      as (_ & _ & Hmixed & _). apply Hmixed. discriminate.
  - destruct (CompareMemory_characterised (mem boot) a2 a3)
      as (_ & _ & _ & Hsizes & _).
    apply Hsizes; [reflexivity | reflexivity | discriminate].
  - destruct (CompareMemory_characterised (mem boot) a2 b2)
      as (_ & _ & _ & _ & Hboth).
    exact (Hboth eq_refl eq_refl Hint Ha Hb).
Defined.

(** The view of the four local bytes at [8192]: two bytes further on
    it has two bytes left, four bytes further on none, and beyond that it
    is the null view. *)
Lemma GetOffset_shifts_or_empties_witness :
  let v := fst (MemoryWrapper.construct (T := Z) 8192 4 0 boot_world) in
  let w := snd (MemoryWrapper.construct (T := Z) 8192 4 0 boot_world) in
  (MemoryWrapper.address (fst (MemoryWrapper.GetOffset v 2 w)) = 8194
   /\ MemoryWrapper.MemorySize (fst (MemoryWrapper.GetOffset v 2 w)) = 2)
  /\ MemoryWrapper.MemorySize (fst (MemoryWrapper.GetOffset v 4 w)) = 0
  /\ MemoryWrapper.address (fst (MemoryWrapper.GetOffset v 5 w)) = 0.
Proof.
  intros v w.
  assert (Ha : 0 <= MemoryWrapper.address v) by (simpl; lia).
  assert (Hs : 0 <= MemoryWrapper.MemorySize v < 2 ^ 64) by (simpl; lia).
  assert (Hfit : MemoryWrapper.address v + MemoryWrapper.MemorySize v <= 2 ^ 64)
    by (simpl; lia).
  split; [|split].
  - destruct (GetOffset_shifts_or_empties v 2 w Ha Hs Hfit ltac:(lia))
      as [Hbelow _].
    destruct (Hbelow ltac:(simpl; lia)) as (Haddr & Hsize & _).
    split; [exact Haddr | exact Hsize].
  - destruct (GetOffset_shifts_or_empties v 4 w Ha Hs Hfit ltac:(lia))
      as (_ & Hat & _).
    exact (Hat eq_refl).
  - destruct (GetOffset_shifts_or_empties v 5 w Ha Hs Hfit ltac:(lia))
      as (_ & _ & Hbeyond).
    exact (proj1 (Hbeyond ltac:(simpl; lia))).
Defined.

(** Three of the four local bytes at [8192] are copied to the heap
    block at [65536]; so are the three bytes of the foreign process
    behind the handle [80]; behind the handle [96] nothing can be read
    and the allocation returned is empty. *)
Lemma ToAllocationWrapper_copies_witness :
  let v := fst (MemoryWrapper.construct (T := Z) 8192 4 0 boot_world) in
  let u := fst (MemoryWrapper.construct (T := Z) 4096 3 80 boot_world) in
  let x := fst (MemoryWrapper.construct (T := Z) 4096 3 96 boot_world) in
  (exists s',
     MemoryWrapper.ToAllocationWrapper v 3 boot
     = MemoryWrapper.Returns
         (AllocationWrapper.construct 65536 3 AllocationWrapper.HEAP_ALLOC) s'
     /\ load_bytes (mem s') 65536 3 = Some [1; 2; 3]
     /\ trace s' = [HeapAlloc_call 3])
  /\ (exists s',
        MemoryWrapper.ToAllocationWrapper u 7 boot
        = MemoryWrapper.Returns
            (AllocationWrapper.construct 65536 3 AllocationWrapper.HEAP_ALLOC) s'
        /\ load_bytes (mem s') 65536 3 = Some [97; 98; 0]
        /\ trace s' = [HeapAlloc_call 3; ReadProcessMemory_call 80 4096 3])
  /\ (exists s',
        MemoryWrapper.ToAllocationWrapper x 7 boot
        = MemoryWrapper.Returns
            (AllocationWrapper.construct 0 0 AllocationWrapper.STACK_ALLOC) s').
Proof.
  intros v u x. split; [|split].
  - destruct (ToAllocationWrapper_copies v 3 boot ltac:(lia) ltac:(simpl; lia))
      as [Hlocal _].
    apply (Hlocal eq_refl ltac:(discriminate)).
    + intros i Hi. simpl in Hi.
      assert (Hcases : i = 0 \/ i = 1 \/ i = 2) by lia.
      destruct Hcases as [-> | [-> | ->]]; reflexivity.
    + reflexivity.
  - destruct (ToAllocationWrapper_copies u 7 boot ltac:(lia) ltac:(simpl; lia))
      as (_ & Hforeign & _).
    exact (Hforeign eq_refl ltac:(discriminate) [97; 98; 0] eq_refl eq_refl).
  - destruct (ToAllocationWrapper_copies x 7 boot ltac:(lia) ltac:(simpl; lia))
      as (_ & _ & Hfailed).
    exact (Hfailed eq_refl eq_refl).
Defined.

(** With the null handle the five member functions stay in the local
    process; with the handle [80] each of them calls into that
    process. *)
Lemma local_path_iff_null_or_invalid_witness :
  let v := fst (MemoryWrapper.construct (T := Z) 8192 4 0 boot_world) in
  let u := fst (MemoryWrapper.construct (T := Z) 4096 3 80 boot_world) in
  Forall (MemoryWrapper.stays_local boot)
         (MemoryWrapper.access_runs 8 4 4 4 v boot)
  /\ Forall (MemoryWrapper.reaches_process 80 boot)
            (MemoryWrapper.access_runs 8 4 3 3 u boot).
Proof.
  intros v u. split.
  - destruct (local_path_iff_null_or_invalid
                8192 4 0 boot_world boot 7 4 4 4) as [Hlocal _].
    exact (Hlocal (or_introl eq_refl)).
  - destruct (local_path_iff_null_or_invalid
                4096 3 80 boot_world boot 7 4 3 3) as (_ & Hforeign & _).
    exact (Hforeign ltac:(discriminate) ltac:(discriminate)).
Defined.

End Witnesses.

(** ** Where the header does not do what is said of it *)

Section Defects.

Import Win32 Scenario.

#[local] Existing Instance sample_kernel.

(** C2. [Release] hands back the wrapped value and stores the sentinel
    in the wrapper, and the destruction that follows runs the release
    action all the same: the owner of [5] with sentinel [-1] returns [5]
    from [Release], holds [-1] afterwards, and its destruction calls the
    release action on [5]. *)
Theorem Release_leaves_deleter_armed :
  let c := GenericWrapper.construct 5 record_release (Some (-1)) log_world in
  let r := GenericWrapper.Release (fst c) in
  fst r = 5
  /\ GenericWrapper.WrappedObject (snd r) = -1
  /\ GenericWrapper.op_not (snd r) = true
  /\ GenericWrapper.env (GenericWrapper.destroy (snd r) (snd c)) = [5].
Proof.
  intros c r.
  destruct (Release_then_destroy 5 record_release (Some (-1)) log_world)
    as (Hret & Hheld & Hdestroyed).
  split; [exact Hret|]. split; [exact Hheld|]. split; [reflexivity|].
  exact Hdestroyed.
Qed.

(** While every read fails and no array happens to hold a zero, the
    loop of [ReadString] goes on with [idx] and [maxIdx] at the size of
    the view. *)
Lemma read_loop_unreadable (fuel : nat) : forall (memory : list Z) (s : os_state),
  exists s',
    MemoryWrapper.read_loop fuel
      (fst (MemoryWrapper.construct (T := Z) 4096 3 96 boot_world))
      3 3 memory s
    = MemoryWrapper.OutOfFuel s'.
Proof.
  induction fuel as [|fuel IH]; intros memory s.
  - eexists. reflexivity.
  - cbn [MemoryWrapper.read_loop].
    change (ReadProcessMemory _ _ _ s)
      with (@None (list Z), log (ReadProcessMemory_call 96 4096 3) s).
    cbv iota beta.
    change (MemoryWrapper.scan _ _ _ memory _) with (Some (3, memory, false)).
    cbv iota beta. apply IH.
Qed.

(** C3. The foreign process behind the handle [80] holds "ab" and the
    terminator in the three bytes of the view, and all three can be
    read: [ReadString] makes one read, which succeeds, and returns the
    empty string. Behind the handle [96] nothing can be read: the loop
    does not end, whatever the fuel. *)
Theorem ReadString_foreign_loses_string :
  let v := fst (MemoryWrapper.construct (T := Z) 4096 3 80 boot_world) in
  let u := fst (MemoryWrapper.construct (T := Z) 4096 3 96 boot_world) in
  sample_remote_read 80 4096 3 = Some [97; 98; 0]
  /\ (forall fuel : nat,
        MemoryWrapper.ReadString (S fuel) v boot
        = MemoryWrapper.Returns [] (log (ReadProcessMemory_call 80 4096 3) boot))
  /\ (forall fuel : nat, exists s',
        MemoryWrapper.ReadString fuel u boot
        = MemoryWrapper.OutOfFuel s').
Proof.
  intros v u. split; [reflexivity|]. split.
  - intros fuel.
    exact (ReadString_after_successful_read
             fuel v boot [97; 98; 0] eq_refl eq_refl eq_refl).
  - intros [|fuel]; [eexists; reflexivity|].
    unfold MemoryWrapper.ReadString.
    change (GenericWrapper.op_not (MemoryWrapper.process u)) with false.
    cbv iota. cbn [MemoryWrapper.read_loop].
    change (ReadProcessMemory _ _ _ boot)
      with (@None (list Z), log (ReadProcessMemory_call 96 4096 3) boot).
    cbv iota beta.
    match goal with |- context [MemoryWrapper.scan ?f ?i ?m ?mem ?st] =>
      let r := eval vm_compute in (MemoryWrapper.scan f i m mem st) in
      change (MemoryWrapper.scan f i m mem st) with r end.
    cbv iota beta. apply read_loop_unreadable.
Qed.

(** C1. The release action does not follow the wrapped value. The only
    owner of [5], with sentinel [-1], has the sentinel stored in it
    through [operator&]: the wrapper holds the sentinel and tests false,
    and when its owners are gone the release action has run on [5]. The
    other way round, a wrapper built on the null value and filled with
    [7] through [operator&] tests true, and when its owners are gone
    the release action has not run. *)
Theorem release_ignores_the_wrapped_value :
  let c := GenericWrapper.construct 5 record_release (Some (-1)) log_world in
  let g := GenericWrapper.store_through_address (fst c) (-1) in
  let z := GenericWrapper.construct 0 record_release (Some (-1)) log_world in
  let f := GenericWrapper.store_through_address (fst z) 7 in
  let life x := [GenericWrapper.Copy x; GenericWrapper.Drop x; GenericWrapper.Drop x] in
  (GenericWrapper.Get g = -1
   /\ GenericWrapper.op_not g = true
   /\ GenericWrapper.owners 1 (life g) = Some 0%nat
   /\ GenericWrapper.env (GenericWrapper.run (life g) (snd c)) = [5])
  /\ (GenericWrapper.Get f = 7
      /\ GenericWrapper.op_bool f = true
      /\ GenericWrapper.owners 1 (life f) = Some 0%nat
      /\ GenericWrapper.env (GenericWrapper.run (life f) (snd z)) = []).
Proof.
  intros c g z f life. split.
  - split; [reflexivity|]. split; [reflexivity|]. split; [reflexivity|].
    destruct (construct_block 5 record_release (Some (-1)) log_world) as [Hb He].
    pose proof (run_owners _ (life g) (snd c) 0%nat _ 0%nat
                  ltac:(repeat constructor) Hb eq_refl) as [_ Hr].
    rewrite Hr, release_closure_releasable. reflexivity.
  - split; [reflexivity|]. split; [reflexivity|]. split; [reflexivity|].
    destruct (construct_block 0 record_release (Some (-1)) log_world) as [Hb He].
    pose proof (run_owners _ (life f) (snd z) 0%nat _ 0%nat
                  ltac:(repeat constructor) Hb eq_refl) as [_ Hr].
    rewrite Hr, release_closure_releasable. reflexivity.
Qed.

(** Where every byte up to the index [INT_MAX] is mapped and the same in
    both allocations, the counter of the comparison reaches [INT_MAX]
    and its increment overflows. *)
Lemma compare_loop_overflows (m : gmap Z Z) (a b : AllocationWrapper.t) :
  AllocationWrapper.has_value b = true ->
  AllocationWrapper.AllocationSize b = AllocationWrapper.AllocationSize a ->
  Machine.INT_MAX < AllocationWrapper.AllocationSize a ->
  (forall j, 0 <= j <= Machine.INT_MAX ->
     exists x, m !! (AllocationWrapper.pointer a + j) = Some x
               /\ m !! (AllocationWrapper.pointer b + j) = Some x) ->
  forall (n fuel : nat) (i : Z),
    0 <= i <= Machine.INT_MAX ->
    Z.to_nat (Machine.INT_MAX - i) = n ->
    AllocationWrapper.compare_loop m a b fuel i = None.
Proof.
  intros Hvb Hsz Hbig Hsame.
  assert (Hint : Machine.INT_MAX = 2147483647) by reflexivity.
  induction n as [|n IH]; intros fuel i Hi Hn;
    (destruct fuel as [|fuel]; cbn [AllocationWrapper.compare_loop];
     rewrite to_SIZE_T_small by (pow2; lia);
     (destruct (Z.ltb_spec i (AllocationWrapper.AllocationSize a)); [|lia]);
     [reflexivity|]);
    destruct (Hsame i Hi) as (x & Hxa & Hxb);
    (assert (Hidx : AllocationWrapper.op_index m b i = Some x)
       by (unfold AllocationWrapper.op_index; rewrite Hvb, Hsz;
           rewrite to_SIZE_T_small by (pow2; lia);
           destruct (Z.ltb_spec i (AllocationWrapper.AllocationSize a));
           [exact Hxb | lia]));
    rewrite Hxa, Hidx, Z.eqb_refl; simpl.
  - destruct (Z.eqb_spec i Machine.INT_MAX); [reflexivity | lia].
  - destruct (Z.eqb_spec i Machine.INT_MAX); [reflexivity|].
    apply IH; lia.
Qed.

Lemma huge_mem_first_region (j : Z) :
  0 <= j < Fixtures.huge_size ->
  Fixtures.huge_mem !! (Fixtures.huge_a + j) = Some 0.
Proof.
  intros Hj. unfold Fixtures.huge_mem, Fixtures.huge_size, Fixtures.huge_a,
    Fixtures.huge_b in *.
  rewrite lookup_insert_ne by lia.
  apply lookup_gset_to_gmap_Some. split; [|reflexivity].
  apply elem_of_union. left. apply elem_of_list_to_set, elem_of_seqZ. lia.
Qed.

Lemma huge_mem_second_region (j : Z) :
  0 <= j < Fixtures.huge_size ->
  Fixtures.huge_mem !! (Fixtures.huge_b + j)
  = Some (if j =? 2147483648 then 1 else 0).
Proof.
  intros Hj. unfold Fixtures.huge_mem, Fixtures.huge_size, Fixtures.huge_a,
    Fixtures.huge_b in *.
  destruct (Z.eqb_spec j 2147483648) as [->|Hne].
  - apply lookup_insert_eq.
  - rewrite lookup_insert_ne by lia.
    apply lookup_gset_to_gmap_Some. split; [|reflexivity].
    apply elem_of_union. right. apply elem_of_list_to_set, elem_of_seqZ. lia.
Qed.

(** C6. Two allocations of [2^31 + 1] bytes whose bytes are all mapped
    and differ in the last byte only, at the index [2^31]. The counter
    of [CompareMemory] is an [int]: its increment overflows after the
    index [INT_MAX], the byte at [2^31] is never looked at, and the
    comparison has no defined result, neither for the first allocation
    against itself nor for the first against the second. *)
Theorem CompareMemory_overflows_beyond_INT_MAX :
  let a := AllocationWrapper.construct Fixtures.huge_a Fixtures.huge_size
             AllocationWrapper.STACK_ALLOC in
  let b := AllocationWrapper.construct Fixtures.huge_b Fixtures.huge_size
             AllocationWrapper.STACK_ALLOC in
  AllocationWrapper.backed Fixtures.huge_mem a
  /\ AllocationWrapper.backed Fixtures.huge_mem b
  /\ Fixtures.huge_mem !! (AllocationWrapper.pointer a + 2147483648) = Some 0
  /\ Fixtures.huge_mem !! (AllocationWrapper.pointer b + 2147483648) = Some 1
  /\ AllocationWrapper.CompareMemory Fixtures.huge_mem a a = None
  /\ AllocationWrapper.CompareMemory Fixtures.huge_mem a b = None.
Proof.
  intros a b.
  assert (Hva : AllocationWrapper.has_value a = true) by reflexivity.
  assert (Hvb : AllocationWrapper.has_value b = true) by reflexivity.
  assert (Hsize : AllocationWrapper.AllocationSize a = Fixtures.huge_size)
    by reflexivity.
  assert (Hbig : Machine.INT_MAX < AllocationWrapper.AllocationSize a)
    by reflexivity.
  assert (Hcompare : forall c,
            AllocationWrapper.has_value c = true ->
            AllocationWrapper.AllocationSize c = AllocationWrapper.AllocationSize a ->
            (forall j, 0 <= j <= Machine.INT_MAX ->
               exists x, Fixtures.huge_mem !! (AllocationWrapper.pointer a + j) = Some x
                         /\ Fixtures.huge_mem !! (AllocationWrapper.pointer c + j)
                            = Some x) ->
            AllocationWrapper.CompareMemory Fixtures.huge_mem a c = None).
  { intros c Hvc Hsc Hsame. unfold AllocationWrapper.CompareMemory,
      AllocationWrapper.op_bool. rewrite Hva, Hvc, Hsc, Z.eqb_refl.
    cbn [negb andb orb].
    exact (compare_loop_overflows Fixtures.huge_mem a c Hvc Hsc Hbig Hsame
             _ _ 0 ltac:(unfold Machine.INT_MAX; lia) eq_refl). }
  split; [|split; [|split; [|split; [|split]]]].
  - intros _ i Hi. rewrite Hsize in Hi.
    change (AllocationWrapper.pointer a) with Fixtures.huge_a.
    rewrite (huge_mem_first_region i Hi). eauto.
  - intros _ i Hi. change (AllocationWrapper.AllocationSize b)
      with Fixtures.huge_size in Hi.
    change (AllocationWrapper.pointer b) with Fixtures.huge_b.
    rewrite (huge_mem_second_region i Hi). eauto.
  - change (AllocationWrapper.pointer a) with Fixtures.huge_a.
    apply huge_mem_first_region. unfold Fixtures.huge_size. lia.
  - change (AllocationWrapper.pointer b) with Fixtures.huge_b.
    rewrite huge_mem_second_region by (unfold Fixtures.huge_size; lia).
    reflexivity.
  - apply Hcompare; [exact Hva | reflexivity|].
    intros j Hj. exists 0.
    change (AllocationWrapper.pointer a) with Fixtures.huge_a.
    rewrite huge_mem_first_region
      by (unfold Machine.INT_MAX, Fixtures.huge_size in *; lia).
    split; reflexivity.
  - apply Hcompare; [exact Hvb | reflexivity|].
    intros j Hj. exists 0.
    change (AllocationWrapper.pointer a) with Fixtures.huge_a.
    change (AllocationWrapper.pointer b) with Fixtures.huge_b.
    rewrite huge_mem_first_region
      by (unfold Machine.INT_MAX, Fixtures.huge_size in *; lia).
    rewrite huge_mem_second_region
      by (unfold Machine.INT_MAX, Fixtures.huge_size in *; lia).
    destruct (Z.eqb_spec j 2147483648);
      [unfold Machine.INT_MAX in Hj; lia | split; reflexivity].
Qed.

End Defects.

(** * Further properties of the header *)

(** ** GenericWrapper: truthiness *)

Section GenericWrapperMore.

Import GenericWrapper.

Context {T : Type} `{Resource T} {E : Type}.

Implicit Types (g : t T) (w : world E) (l : list (step (T := T))).

Lemma op_bool_construct (object : T) (freeFunction : T -> E -> E)
    (bad : option T) w :
  op_bool (fst (construct object freeFunction bad w)) = releasable object bad.
Proof.
  unfold op_bool, op_not, truthy, eq_optional, releasable. simpl.
  rewrite negb_orb, negb_involutive. reflexivity.
Qed.

(** X1. A wrapper tests true after its construction exactly when the
    destruction of its last owner runs the release action: the
    environment after the last owner has gone is the release action
    applied to the acquired value if [operator bool] held, and the
    environment as it was if not. *)
Theorem truthy_wrapper_is_the_released_one (object : T)
    (freeFunction : T -> E -> E) (bad : option T) w l :
  let g := fst (construct object freeFunction bad w) in
  let w1 := snd (construct object freeFunction bad w) in
  owners_of g l ->
  owners 1 l = Some 0%nat ->
  env (run l w1) = (if op_bool g then freeFunction object (env w) else env w).
Proof.
  intros g w1 Hsh Ho.
  destruct (construct_block object freeFunction bad w) as [Hb He].
  fold g w1 in Hb, He.
  pose proof (run_owners _ l w1 0%nat _ 0%nat Hsh Hb Ho) as [_ Hr].
  rewrite Hr, He, release_closure_releasable.
  unfold g. rewrite op_bool_construct. reflexivity.
Qed.

End GenericWrapperMore.

(** ** FindWrapper *)

Section FindWrapperFacts.

Import Win32.

(** X4. A search handle is closed with [FindClose], without a probe:
    when the last owner of a handle that is neither null nor
    [INVALID_HANDLE_VALUE] goes, the one call made is [FindClose] on
    that handle; for the null handle and for [INVALID_HANDLE_VALUE] no
    call is made. Memory and last error are as they were. *)
Theorem FindWrapper_closes_without_probe (handle : Z)
    (w : GenericWrapper.world os_state) (l : list GenericWrapper.step) :
  let g := fst (FindWrapper.construct handle w) in
  let w1 := snd (FindWrapper.construct handle w) in
  let s := GenericWrapper.env w in
  let s' := GenericWrapper.env (GenericWrapper.run l w1) in
  GenericWrapper.owners_of g l ->
  GenericWrapper.owners 1 l = Some 0%nat ->
  (handle <> 0 -> handle <> INVALID_HANDLE_VALUE ->
     s' = log (FindClose_call handle) s)
  /\ (handle = 0 \/ handle = INVALID_HANDLE_VALUE -> s' = s).
Proof.
  intros g w1 s s' Hsh Ho.
  destruct (construct_block handle FindClose (Some INVALID_HANDLE_VALUE) w)
    as [Hb He].
  pose proof (run_owners _ l w1 0%nat _ 0%nat Hsh Hb Ho) as [_ Hr].
  change (GenericWrapper.env w1 = s) in He.
  assert (Hs' : s' = if GenericWrapper.releasable handle (Some INVALID_HANDLE_VALUE)
                     then FindClose handle s else s).
  { subst s'. rewrite Hr, He. apply release_closure_releasable. }
  rewrite Hs'. unfold GenericWrapper.releasable. split.
  - intros Hnull Hbad.
    rewrite !bool_decide_eq_false_2; [reflexivity | congruence | exact Hnull].
  - intros [-> | ->].
    + reflexivity.
    + rewrite (bool_decide_eq_true_2 (Some INVALID_HANDLE_VALUE
                                      = Some INVALID_HANDLE_VALUE)) by reflexivity.
      rewrite andb_false_r. reflexivity.
Qed.

End FindWrapperFacts.

(** ** AllocationWrapper: construction, writes, strings *)

Section AllocationWrapperMore.

Import Win32 AllocationWrapper AllocationText.

Implicit Types (m : gmap Z Z) (a b : t).

(** X5. An allocation built from a null pointer or with size zero has
    no backing memory, and everything read from it is the empty answer
    whatever the memory holds: the size is zero, every index reads as
    zero, the typed read and both string reads are empty, and it
    compares equal to any other allocation without memory. *)
Theorem empty_allocation_reads_nothing {T : Type} `{Pod T} m (memory size : Z)
    (AllocationType : AllocationFunction) :
  memory = 0 \/ size = 0 ->
  let a := construct memory size AllocationType in
  op_bool a = false
  /\ GetSize a = 0
  /\ (forall i, op_index m a i = Some 0)
  /\ Dereference (T := T) m a = Some None
  /\ ReadString m a = Some None
  /\ ReadWString m a = Some None
  /\ (forall b, has_value b = false -> CompareMemory m a b = Some true).
Proof.
  intros Hempty a.
  assert (Hv : has_value a = false).
  { unfold a, construct, has_value. simpl.
    destruct Hempty as [-> | ->];
      [destruct (size =? 0) | destruct (memory =? 0)]; reflexivity. }
  repeat split.
  - exact Hv.
  - unfold GetSize. rewrite Hv. reflexivity.
  - intros i. unfold op_index. rewrite Hv. reflexivity.
  - unfold Dereference. rewrite Hv. simpl. rewrite orb_true_r. reflexivity.
  - unfold ReadString. rewrite Hv. reflexivity.
  - unfold ReadWString. rewrite Hv. reflexivity.
  - intros b Hb. unfold CompareMemory, op_bool. rewrite Hv, Hb. reflexivity.
Qed.

(** X6. [SetByte] and [operator[]] agree. A write below the size of an
    allocation whose bytes are mapped succeeds; the index written then
    reads the value written, every other index reads what it read
    before, and the bytes of the allocation stay mapped. A write at or
    beyond the size is refused and changes nothing. *)
Theorem SetByte_then_index m a (offset value : Z) :
  has_value a = true ->
  backed m a ->
  (0 <= offset < AllocationSize a ->
   exists m',
     SetByte m a offset value = Some (true, m')
     /\ (offset < 2 ^ 31 -> op_index m' a offset = Some value)
     /\ (forall i, i <> offset -> op_index m' a i = op_index m a i)
     /\ backed m' a)
  /\ (AllocationSize a <= offset -> SetByte m a offset value = Some (false, m)).
Proof.
  intros Hv Hb. split.
  - intros Ho. unfold SetByte.
    destruct (Z.ltb_spec offset (AllocationSize a)) as [_|]; [|lia].
    destruct (Hb Hv offset Ho) as [old Hold]. rewrite Hold.
    eexists. split; [reflexivity|]. split; [|split].
    + intros Hint. unfold op_index. rewrite Hv.
      rewrite to_SIZE_T_small by (pow2; lia).
      destruct (Z.ltb_spec offset (AllocationSize a)); [|lia].
      simpl. apply lookup_insert_eq.
    + intros i Hi. unfold op_index.
      destruct (has_value a && (Machine.to_SIZE_T i <? AllocationSize a));
        [|reflexivity].
      apply lookup_insert_ne. lia.
    + intros _ i Hi.
      destruct (Z.eq_dec i offset) as [->|Hne].
      * rewrite lookup_insert_eq. eauto.
      * rewrite lookup_insert_ne by lia. exact (Hb Hv i Hi).
  - intros Hge. unfold SetByte.
    destruct (Z.ltb_spec offset (AllocationSize a)); [lia | reflexivity].
Qed.

Lemma string_of_array_terminated (bs : list Z) :
  Forall (fun c => c <> 0) bs ->
  MemoryWrapper.string_of_array (bs ++ [0]) = bs.
Proof.
  induction 1 as [|c bs Hc _ IH]; simpl; [reflexivity|].
  destruct (Z.eqb_spec c 0); [contradiction|]. rewrite IH. reflexivity.
Qed.

Lemma strnlen_spec m (p : Z) (n : nat) :
  (forall i, 0 <= i < Z.of_nat n -> is_Some (m !! (p + i))) ->
  exists k bs,
    strnlen m p n = Some k
    /\ (k <= n)%nat
    /\ load_bytes m p k = Some bs
    /\ Forall (fun c => c <> 0) bs
    /\ ((k < n)%nat -> m !! (p + Z.of_nat k) = Some 0).
Proof.
  revert p. induction n as [|n IH]; intros p Hm.
  - exists O, []. simpl. repeat split; [lia | constructor | lia].
  - simpl. destruct (Hm 0 ltac:(lia)) as [c Hc]. rewrite Z.add_0_r in Hc.
    rewrite Hc. destruct (Z.eqb_spec c 0) as [->|Hne].
    + exists O, []. simpl. repeat split; [lia | constructor |].
      intros _. rewrite Z.add_0_r. exact Hc.
    + destruct (IH (p + 1)) as (k & bs & Hk & Hle & Hl & Hnz & Hend).
      { intros i Hi. replace (p + 1 + i) with (p + (i + 1)) by lia.
        apply Hm. lia. }
      rewrite Hk. exists (S k), (c :: bs). simpl. rewrite Hc, Hl.
      repeat split; [lia | constructor; assumption |].
      intros Hlt.
      assert (Heq : p + Z.of_nat (S k) = p + 1 + Z.of_nat k) by lia.
      rewrite Heq. apply Hend. lia.
Qed.

(** X7. [ReadString] of an allocation with backing memory is the run of
    bytes at [pointer] up to the first zero byte, and ends at the size
    of the allocation when there is none: the string is no longer than
    the size, holds no zero, is byte for byte what the memory holds,
    and when it is shorter than the size the byte after it is zero. *)
Theorem ReadString_is_bounded_prefix m a :
  has_value a = true ->
  backed m a ->
  exists str,
    ReadString m a = Some (Some str)
    /\ Z.of_nat (length str) <= Z.max 0 (AllocationSize a)
    /\ Forall (fun c => c <> 0) str
    /\ (forall i : nat, (i < length str)%nat ->
          str !! i = m !! (pointer a + Z.of_nat i))
    /\ (Z.of_nat (length str) < AllocationSize a ->
        m !! (pointer a + Z.of_nat (length str)) = Some 0).
Proof.
  intros Hv Hb. unfold ReadString. rewrite Hv.
  destruct (strnlen_spec m (pointer a) (Z.to_nat (AllocationSize a)))
    as (k & bs & Hk & Hle & Hl & Hnz & Hend).
  { intros i Hi. apply (Hb Hv). lia. }
  rewrite Hk, Hl, (string_of_array_terminated bs Hnz).
  pose proof (load_bytes_length _ _ _ _ Hl) as Hlen.
  exists bs. split; [reflexivity|]. rewrite Hlen. repeat split.
  - lia.
  - exact Hnz.
  - intros i Hi. apply (load_bytes_lookup m (pointer a) k bs i Hl). lia.
  - intros Hlt. apply Hend. lia.
Qed.

Lemma wcsnlen_spec m (p : Z) (n : nat) :
  (forall i, 0 <= i < 2 * Z.of_nat n -> is_Some (m !! (p + i))) ->
  exists k cs,
    wcsnlen m p n = Some k
    /\ (k <= n)%nat
    /\ load_wchars m p k = Some cs
    /\ length cs = k
    /\ Forall (fun c => c <> 0) cs
    /\ (forall i : nat, (i < k)%nat ->
          cs !! i = wchar_at m (p + 2 * Z.of_nat i))
    /\ ((k < n)%nat -> wchar_at m (p + 2 * Z.of_nat k) = Some 0).
Proof.
  revert p. induction n as [|n IH]; intros p Hm.
  - exists O, []. simpl. repeat split; [lia | constructor | lia | lia].
  - simpl.
    destruct (Hm 0 ltac:(lia)) as [lo Hlo]. rewrite Z.add_0_r in Hlo.
    destruct (Hm 1 ltac:(lia)) as [hi Hhi].
    assert (Hw : wchar_at m p = Some (wchar_of_bytes lo hi)).
    { unfold wchar_at. rewrite Hlo, Hhi. reflexivity. }
    rewrite Hw. destruct (Z.eqb_spec (wchar_of_bytes lo hi) 0) as [Hz|Hne].
    + exists O, []. simpl. repeat split; [lia | constructor | lia |].
      intros _. rewrite Z.add_0_r, Hw, Hz. reflexivity.
    + destruct (IH (p + 2)) as (k & cs & Hk & Hle & Hl & Hlen & Hnz & Hat & Hend).
      { intros i Hi. replace (p + 2 + i) with (p + (i + 2)) by lia.
        apply Hm. lia. }
      rewrite Hk. exists (S k), (wchar_of_bytes lo hi :: cs). simpl.
      rewrite Hw, Hl. repeat split.
      * lia.
      * simpl. lia.
      * constructor; assumption.
      * intros [|i] Hi; simpl.
        -- rewrite Z.add_0_r. symmetry. exact Hw.
        -- rewrite (Hat i) by lia. f_equal. lia.
      * intros Hlt.
        assert (Heq : p + 2 * Z.of_nat (S k) = p + 2 + 2 * Z.of_nat k) by lia.
        rewrite Heq. apply Hend. lia.
Qed.

(** X8. [ReadWString] looks at [AllocationSize / 2] two-byte characters
    at most: the string is no longer than that, holds no zero
    character, is character for character what the memory holds, and
    when it is shorter the character after it is zero. A last odd byte
    is never part of it. *)
Theorem ReadWString_is_bounded_prefix m a :
  has_value a = true ->
  backed m a ->
  exists str,
    ReadWString m a = Some (Some str)
    /\ 2 * Z.of_nat (length str) <= Z.max 0 (AllocationSize a)
    /\ Forall (fun c => c <> 0) str
    /\ (forall i : nat, (i < length str)%nat ->
          str !! i = wchar_at m (pointer a + 2 * Z.of_nat i))
    /\ (Z.of_nat (length str) < AllocationSize a / 2 ->
        wchar_at m (pointer a + 2 * Z.of_nat (length str)) = Some 0).
Proof.
  intros Hv Hb. unfold ReadWString. rewrite Hv.
  destruct (Z_le_dec (AllocationSize a) 0) as [Hneg|Hpos].
  - assert (Hhalf : AllocationSize a / 2 <= 0)
      by (apply Z.div_le_upper_bound; lia).
    assert (Hz : Z.to_nat (AllocationSize a / 2) = O) by lia.
    rewrite Hz. simpl. exists []. split; [reflexivity|]. simpl.
    repeat split; [lia | constructor | intros i Hi; lia |].
    intros Hlt. lia.
  - pose proof (Z.mul_div_le (AllocationSize a) 2 ltac:(lia)) as Hhalf.
    assert (H0 : 0 <= AllocationSize a / 2) by (apply Z.div_pos; lia).
    destruct (wcsnlen_spec m (pointer a) (Z.to_nat (AllocationSize a / 2)))
      as (k & cs & Hk & Hle & Hl & Hlen & Hnz & Hat & Hend).
    { intros i Hi. apply (Hb Hv). lia. }
    rewrite Hk, Hl, (string_of_array_terminated cs Hnz).
    exists cs. split; [reflexivity|]. rewrite Hlen. repeat split.
    + lia.
    + exact Hnz.
    + exact Hat.
    + intros Hlt. apply Hend. lia.
Qed.

End AllocationWrapperMore.

(** ** AllocationWrapper: comparison as a relation, and the owned memory *)

Section AllocationWrapperRelation.

Import Win32 AllocationWrapper.

Implicit Types (m : gmap Z Z) (a b c : t).

Lemma CompareMemory_true_iff m a b :
  0 <= AllocationSize a <= Machine.INT_MAX ->
  backed m a -> backed m b ->
  exists r, CompareMemory m a b = Some r
    /\ (r = true <->
        (has_value a = false /\ has_value b = false)
        \/ (has_value a = true /\ has_value b = true
            /\ AllocationSize a = AllocationSize b
            /\ forall j, 0 <= j < AllocationSize a ->
                         m !! (pointer a + j) = m !! (pointer b + j))).
Proof.
  intros Hsa Hba Hbb. unfold CompareMemory, op_bool.
  destruct (has_value a) eqn:Hva, (has_value b) eqn:Hvb; simpl.
  - destruct (Z.eqb_spec (AllocationSize b) (AllocationSize a)) as [Heq|Hne].
    + destruct (compare_loop_spec m a b Hvb Heq ltac:(lia) Hba Hbb Hva
                  (Z.to_nat (AllocationSize a)) 0 ltac:(lia) ltac:(lia))
        as (r & Hr & Hiff).
      exists r. split; [exact Hr|]. rewrite Hiff. split.
      * intros Hall. right. repeat split; [congruence | exact Hall].
      * intros [[? _] | (_ & _ & _ & Hall)]; [discriminate | exact Hall].
    + exists false. split; [reflexivity|]. split; [discriminate|].
      intros [[? _] | (_ & _ & ? & _)]; [discriminate | congruence].
  - exists false. split; [reflexivity|]. split; [discriminate|].
    intros [[? _] | (_ & ? & _)]; discriminate.
  - exists false. split; [reflexivity|]. split; [discriminate|].
    intros [[_ ?] | (? & _)]; discriminate.
  - exists true. split; [reflexivity|]. split; [auto | reflexivity].
Qed.

(** X9. On allocations whose bytes are mapped and whose sizes an [int]
    can count, [CompareMemory] is symmetric and transitive: the answer
    does not depend on which allocation is asked, and two allocations
    equal to a third are equal to each other. *)
Theorem CompareMemory_symmetric_transitive m a b c :
  0 <= AllocationSize a <= Machine.INT_MAX ->
  0 <= AllocationSize b <= Machine.INT_MAX ->
  backed m a -> backed m b -> backed m c ->
  CompareMemory m a b = CompareMemory m b a
  /\ (CompareMemory m a b = Some true -> CompareMemory m b c = Some true ->
      CompareMemory m a c = Some true).
Proof.
  intros Hsa Hsb Hba Hbb Hbc.
  destruct (CompareMemory_true_iff m a b Hsa Hba Hbb) as (rab & Hab & Iab).
  destruct (CompareMemory_true_iff m b a Hsb Hbb Hba) as (rba & Hba' & Iba).
  destruct (CompareMemory_true_iff m b c Hsb Hbb Hbc) as (rbc & Hbc' & Ibc).
  destruct (CompareMemory_true_iff m a c Hsa Hba Hbc) as (rac & Hac & Iac).
  split.
  - rewrite Hab, Hba'. f_equal.
    apply eq_true_iff_eq. rewrite Iab, Iba. split.
    + intros [[? ?] | (? & ? & Hs & Hall)]; [left; auto | right].
      repeat split; try assumption; [congruence|].
      intros j Hj. symmetry. apply Hall. lia.
    + intros [[? ?] | (? & ? & Hs & Hall)]; [left; auto | right].
      repeat split; try assumption; [congruence|].
      intros j Hj. symmetry. apply Hall. lia.
  - rewrite Hab, Hbc', Hac. intros [= ->] [= ->]. f_equal.
    apply Iac.
    destruct (proj1 Iab eq_refl) as [[Ha Hb] | (Ha & Hb & Hs & Hall)];
      destruct (proj1 Ibc eq_refl) as [[Hb' Hc] | (Hb' & Hc & Hs' & Hall')];
      try congruence.
    + left. auto.
    + right. repeat split; try assumption; [congruence|].
      intros j Hj. rewrite (Hall j Hj). apply Hall'. lia.
Qed.

End AllocationWrapperRelation.

Section AllocationOwnerFacts.

Import AllocationOwner.

Implicit Types (o : t) (w : world) (l : list step).

Lemma allocation_run_owners (id : nat) o l :
  control o = Some id ->
  forall w n d k,
    GenericWrapper.blocks w !! id = Some (GenericWrapper.ControlBlock (S n) d) ->
    owners (S n) l = Some k ->
    match k with
    | O => GenericWrapper.env (run o l w) = d (GenericWrapper.env w)
    | S k' =>
        GenericWrapper.blocks (run o l w) !! id
          = Some (GenericWrapper.ControlBlock k d)
        /\ GenericWrapper.env (run o l w) = GenericWrapper.env w
    end.
Proof.
  intros Hid. induction l as [|s l IH]; intros w n d k Hb Ho.
  - simpl in Ho. injection Ho as <-. simpl. auto.
  - simpl in Ho. destruct s.
    + change (run o (Copy :: l) w) with (run o l (snd (copy o w))).
      assert (Hc : snd (copy o w)
                   = GenericWrapper.World
                       (alter (fun cb => GenericWrapper.ControlBlock
                                           (S (GenericWrapper.use_count cb))
                                           (GenericWrapper.deleter cb))
                              id (GenericWrapper.blocks w))
                       (GenericWrapper.env w)).
      { unfold copy. rewrite Hid. reflexivity. }
      rewrite Hc.
      match goal with |- context [run o l ?w'] =>
        assert (Hb' : GenericWrapper.blocks w' !! id
                      = Some (GenericWrapper.ControlBlock (S (S n)) d))
          by (simpl; rewrite lookup_alter_eq, Hb; reflexivity);
        exact (IH w' (S n) d k Hb' Ho)
      end.
    + change (run o (Drop :: l) w) with (run o l (destroy o w)).
      destruct n as [|n].
      * destruct l as [|s' l']; [|simpl in Ho; discriminate].
        simpl in Ho. injection Ho as <-.
        unfold run, destroy. simpl. rewrite Hid, Hb. reflexivity.
      * assert (Hd : destroy o w
                     = GenericWrapper.World
                         (<[id := GenericWrapper.ControlBlock (S n) d]>
                            (GenericWrapper.blocks w))
                         (GenericWrapper.env w)).
        { unfold destroy. rewrite Hid, Hb. reflexivity. }
        rewrite Hd.
        assert (Hb' : GenericWrapper.blocks
                        (GenericWrapper.World
                           (<[id := GenericWrapper.ControlBlock (S n) d]>
                              (GenericWrapper.blocks w))
                           (GenericWrapper.env w)) !! id
                      = Some (GenericWrapper.ControlBlock (S n) d))
          by apply lookup_insert_eq.
        exact (IH _ n d k Hb' Ho).
Qed.

Lemma allocation_owners_app (n : nat) l1 l2 (k : nat) :
  owners n (l1 ++ l2) = Some k ->
  exists j, owners n l1 = Some j /\ owners j l2 = Some k.
Proof.
  revert n. induction l1 as [|s l1 IH]; intros n Ho; simpl in *.
  - eauto.
  - destruct n as [|n]; [discriminate|]. apply IH. exact Ho.
Qed.

Lemma allocation_run_unowned o l w :
  control o = None -> run o l w = w.
Proof.
  intros Hnone. revert w. induction l as [|s l IH]; intros w; [reflexivity|].
  change (run o (s :: l) w) with (run o l (run_step o s w)).
  rewrite IH. destruct s; simpl; unfold copy, destroy; rewrite Hnone; reflexivity.
Qed.

(** X10. The memory of an allocation is given back once, by the
    deallocator of its allocation type, when the last allocation that
    shares it is destroyed: copies and destructions before that leave
    the record of deallocations as it was, and the last destruction
    adds one call on the pointer: [delete] for [CPP_ALLOC], [delete[]]
    for [CPP_ARRAY_ALLOC], [free] for [MALLOC], [HeapFree] for
    [HEAP_ALLOC], [VirtualFree] for [VIRTUAL_ALLOC], [GlobalFree] for
    [GLOBAL_ALLOC], [LocalFree] for [LOCAL_ALLOC]. No call is ever made
    for [STACK_ALLOC], nor for an allocation built from a null pointer
    or with size zero. *)
Theorem allocation_memory_freed_once (memory size : Z)
    (AllocationType : AllocationWrapper.AllocationFunction) w l :
  let o := fst (construct memory size AllocationType w) in
  let w1 := snd (construct memory size AllocationType w) in
  let before := GenericWrapper.env w in
  let after := GenericWrapper.env (run o l w1) in
  owners 1 l = Some 0%nat ->
  (memory <> 0 -> size <> 0 ->
     (AllocationType = AllocationWrapper.CPP_ALLOC ->
        after = before ++ [by_delete memory])
     /\ (AllocationType = AllocationWrapper.CPP_ARRAY_ALLOC ->
         after = before ++ [by_delete_array memory])
     /\ (AllocationType = AllocationWrapper.MALLOC ->
         after = before ++ [by_free memory])
     /\ (AllocationType = AllocationWrapper.HEAP_ALLOC ->
         after = before ++ [by_HeapFree memory])
     /\ (AllocationType = AllocationWrapper.VIRTUAL_ALLOC ->
         after = before ++ [by_VirtualFree memory])
     /\ (AllocationType = AllocationWrapper.GLOBAL_ALLOC ->
         after = before ++ [by_GlobalFree memory])
     /\ (AllocationType = AllocationWrapper.LOCAL_ALLOC ->
         after = before ++ [by_LocalFree memory]))
  /\ (memory = 0 \/ size = 0 \/ AllocationType = AllocationWrapper.STACK_ALLOC ->
      after = before)
  /\ (forall l1 l2, l = l1 ++ l2 -> l2 <> [] ->
      GenericWrapper.env (run o l1 w1) = before).
Proof.
  intros o w1 before after Ho.
  assert (Hcases :
    (memory <> 0 /\ size <> 0
     /\ exists id, control o = Some id
        /\ GenericWrapper.blocks w1 !! id
           = Some (GenericWrapper.ControlBlock 1 (deallocate AllocationType memory))
        /\ GenericWrapper.env w1 = before)
    \/ ((memory = 0 \/ size = 0) /\ control o = None /\ w1 = w)).
  { subst o w1 before. unfold construct, AllocationWrapper.construct. simpl.
    destruct (Z.eqb_spec size 0) as [Hs|Hs]; simpl; [right; auto|].
    destruct (Z.eqb_spec memory 0) as [Hm|Hm]; simpl; [right; auto|].
    left. repeat split; try assumption.
    eexists. split; [reflexivity|]. split; [apply lookup_insert_eq | reflexivity]. }
  destruct Hcases as [(Hm & Hs & id & Hid & Hb & He) | (Hempty & Hnone & Hw)].
  - assert (Hafter : after = deallocate AllocationType memory before).
    { pose proof (allocation_run_owners id o l Hid w1 0%nat _ 0%nat Hb Ho) as Hr.
      simpl in Hr. subst after. rewrite Hr, He. reflexivity. }
    split; [|split].
    + intros _ _. rewrite Hafter.
      repeat split; intros ->; reflexivity.
    + intros [? | [? | ->]]; [contradiction | contradiction |].
      rewrite Hafter. reflexivity.
    + intros l1 l2 -> Hne.
      apply allocation_owners_app in Ho as (j & H1 & H2).
      destruct j as [|j].
      * destruct l2; [congruence | discriminate].
      * pose proof (allocation_run_owners id o l1 Hid w1 0%nat _ (S j) Hb H1)
          as [_ Hr].
        rewrite Hr, He. reflexivity.
  - subst after before. rewrite Hw in *. split; [|split].
    + intros Hm Hs. destruct Hempty; contradiction.
    + intros _. rewrite (allocation_run_unowned o l w Hnone). reflexivity.
    + intros l1 l2 _ _. rewrite (allocation_run_unowned o l1 w Hnone). reflexivity.
Qed.

End AllocationOwnerFacts.

(** ** MemoryWrapper: offsets, the end of a view *)

Section MemoryWrapperMore.

Import Win32 MemoryWrapper.

Context `{Kernel} {T : Type} `{Pod T}.

Implicit Types (v : t T) (s : os_state) (w : GenericWrapper.world os_state).




Lemma fresh_block_ne (blocks : gmap nat (GenericWrapper.control_block os_state))
    (id : nat) (cb : GenericWrapper.control_block os_state) :
  fresh (dom (<[id := cb]> blocks)) <> id.
Proof.
  intros Heq.
  pose proof (is_fresh (dom (<[id := cb]> blocks))) as Hfresh.
  rewrite Heq in Hfresh. apply Hfresh.
  apply elem_of_dom. rewrite lookup_insert_eq. eauto.
Qed.

(** X12. Every view closes the process handle it was built with. A view
    and a view made from it by [GetOffset] each hold a [HandleWrapper]
    of their own on the same raw handle: when the handle is neither
    null nor [INVALID_HANDLE_VALUE], destroying the second view hands
    the handle to [SafeCloseHandle] while the first view still uses it,
    and destroying the first view hands it over again. With the null
    handle or [INVALID_HANDLE_VALUE] the two destructions do nothing. *)
Theorem views_close_the_process_handle (base size h k : Z) w :
  let c := construct (T := T) base size h w in
  let o := GetOffset (fst c) k (snd c) in
  let w3 := MemoryView.destroy (fst o) (snd o) in
  let w4 := MemoryView.destroy (fst c) w3 in
  (h <> 0 -> h <> INVALID_HANDLE_VALUE ->
     GenericWrapper.env w3 = HandleWrapper.SafeCloseHandle h (GenericWrapper.env w)
     /\ GenericWrapper.env w4
        = HandleWrapper.SafeCloseHandle h
            (HandleWrapper.SafeCloseHandle h (GenericWrapper.env w)))
  /\ (h = 0 \/ h = INVALID_HANDLE_VALUE ->
      GenericWrapper.env w3 = GenericWrapper.env w
      /\ GenericWrapper.env w4 = GenericWrapper.env w).
Proof.
  intros c o w3 w4.
  set (d := GenericWrapper.release_closure h HandleWrapper.SafeCloseHandle
              (Some INVALID_HANDLE_VALUE)).
  set (id1 := fresh (dom (GenericWrapper.blocks w))).
  set (b1 := <[id1 := GenericWrapper.ControlBlock 1 d]> (GenericWrapper.blocks w)).
  set (id2 := fresh (dom b1)).
  assert (Hne : id2 <> id1) by apply fresh_block_ne.
  assert (Ho : snd o = GenericWrapper.World
                         (<[id2 := GenericWrapper.ControlBlock 1 d]> b1)
                         (GenericWrapper.env w)
               /\ GenericWrapper.ReferenceCounter (process (fst o)) = id2).
  { subst o c. unfold GetOffset.
    destruct (k >? MemorySize (fst (construct base size h w))); split; reflexivity. }
  destruct Ho as [Hsnd Hid2].
  assert (Hw3 : w3 = GenericWrapper.World
                       (delete id2 (<[id2 := GenericWrapper.ControlBlock 1 d]> b1))
                       (d (GenericWrapper.env w))).
  { subst w3. unfold MemoryView.destroy, GenericWrapper.destroy.
    rewrite Hid2, Hsnd. simpl. rewrite lookup_insert_eq. reflexivity. }
  assert (Hw4 : GenericWrapper.env w4 = d (d (GenericWrapper.env w))).
  { subst w4. unfold MemoryView.destroy, GenericWrapper.destroy. rewrite Hw3.
    change (GenericWrapper.ReferenceCounter (process (fst c))) with id1. simpl.
    rewrite lookup_delete_ne by exact Hne.
    rewrite lookup_insert_ne by exact Hne.
    unfold b1. rewrite lookup_insert_eq. reflexivity. }
  rewrite Hw4, Hw3. simpl. unfold d.
  rewrite !release_closure_releasable. unfold GenericWrapper.releasable. split.
  - intros Hnull Hbad.
    rewrite !bool_decide_eq_false_2; [split; reflexivity | congruence | exact Hnull].
  - intros [-> | ->].
    + split; reflexivity.
    + rewrite (bool_decide_eq_true_2 (Some INVALID_HANDLE_VALUE
                                      = Some INVALID_HANDLE_VALUE)) by reflexivity.
      rewrite andb_false_r. split; reflexivity.
Qed.

End MemoryWrapperMore.

(** ** MemoryWrapper: the strings it reads *)

Section MemoryWrapperStrings.

Import Win32 MemoryWrapper.

Context `{Kernel} {T : Type} `{Pod T}.

Implicit Types (v : t T) (s : os_state).

Lemma read_c_string_spec (bs : list Z) : forall (fuel : nat) (a : Z) s,
  load_bytes (mem s) a (length bs) = Some bs ->
  Forall (fun c => c <> 0) bs ->
  mem s !! (a + Z.of_nat (length bs)) = Some 0 ->
  (length bs < fuel)%nat ->
  read_c_string fuel a s = Returns bs s.
Proof.
  induction bs as [|b bs IH]; intros fuel a s Hl Hnz Hend Hfuel.
  - destruct fuel as [|fuel]; [lia|]. simpl in *.
    rewrite Z.add_0_r in Hend. rewrite Hend. reflexivity.
  - destruct fuel as [|fuel]; [simpl in Hfuel; lia|].
    simpl in Hl. destruct (mem s !! a) as [c|] eqn:Hc; [|discriminate].
    destruct (load_bytes (mem s) (a + 1) (length bs)) as [bs'|] eqn:Hl';
      [|discriminate].
    injection Hl as -> ->.
    apply Forall_cons in Hnz as [Hb Hnz].
    simpl. rewrite Hc. destruct (Z.eqb_spec b 0); [contradiction|].
    rewrite (IH fuel (a + 1) s Hl' Hnz); [reflexivity | | simpl in Hfuel; lia].
    rewrite <- Hend. f_equal. simpl length. lia.
Qed.

(** X14. In the local context [ReadString] returns the bytes at
    [address] up to the first zero byte and makes no call: the size of
    the view plays no part, so the string runs past the size of the
    view when the zero lies beyond it. *)
Theorem ReadString_local_reads_to_terminator v s (bs : list Z) (fuel : nat) :
  GenericWrapper.op_not (process v) = true ->
  load_bytes (mem s) (address v) (length bs) = Some bs ->
  Forall (fun c => c <> 0) bs ->
  mem s !! (address v + Z.of_nat (length bs)) = Some 0 ->
  (length bs < fuel)%nat ->
  ReadString fuel v s = Returns bs s.
Proof.
  intros Hlocal Hl Hnz Hend Hfuel. unfold ReadString. rewrite Hlocal.
  apply read_c_string_spec; assumption.
Qed.

Lemma scan_fresh (fuel : nat) : forall (idx maxIdx : Z) (memory : list Z) s
    idx' memory' valid,
  MemoryView.fresh_char_array memory ->
  scan fuel idx maxIdx memory s = Some (idx', memory', valid) ->
  MemoryView.fresh_char_array memory'.
Proof.
  induction fuel as [|fuel IH]; intros idx maxIdx memory s idx' memory' valid Hf;
    simpl; destruct (idx <? maxIdx); try discriminate;
    try (intros [= _ <- _]; exact Hf).
  destruct (memory !! Z.to_nat idx) as [c|]; [|discriminate].
  destruct (c =? 0).
  - intros [= _ <- _]. exact Hf.
  - apply IH. eexists _, _. reflexivity.
Qed.

Lemma read_loop_fresh (fuel : nat) v : forall (idx maxIdx : Z) (memory : list Z) s
    str s',
  MemoryView.fresh_char_array memory ->
  read_loop fuel v idx maxIdx memory s = Returns str s' ->
  str = [] \/ exists memory', MemoryView.fresh_char_array memory'
                              /\ str = string_of_array memory'.
Proof.
  induction fuel as [|fuel IH]; intros idx maxIdx memory s str s' Hf;
    [discriminate|].
  cbn [read_loop].
  match goal with |- context [ReadProcessMemory ?h ?b ?n s] =>
    destruct (ReadProcessMemory h b n s) as [[bs|] s1] end.
  - intros [= <- _]. left. reflexivity.
  - match goal with |- context [scan ?f ?i ?m ?mem ?st] =>
      destruct (scan f i m mem st) as [[[idx' memory'] valid]|] eqn:Hscan end;
      [|discriminate].
    pose proof (scan_fresh _ _ _ _ _ _ _ _ Hf Hscan) as Hf'.
    destruct valid.
    + intros [= <- _]. right. exists memory'. split; [exact Hf' | reflexivity].
    + apply IH. exact Hf'.
Qed.

(** X15. In a foreign context [ReadString] never returns what it read
    from the process. A read that succeeds ends the loop with the empty
    string; a string that is not empty was found in a fresh array after
    a read that failed, and is the content of that array up to its
    first zero. *)
Theorem ReadString_foreign_returns_no_remote_bytes v s (fuel : nat)
    (str : list Z) s' :
  GenericWrapper.op_not (process v) = false ->
  ReadString fuel v s = Returns str s' ->
  str = [] \/ exists n s0, str = string_of_array (new_char_array n s0).
Proof.
  intros Hforeign. unfold ReadString. rewrite Hforeign. intros Hret.
  destruct (read_loop_fresh fuel v _ _ _ _ _ _ ltac:(eexists _, _; reflexivity) Hret)
    as [-> | (memory' & (n & s0 & ->) & ->)].
  - left. reflexivity.
  - right. exists n, s0. reflexivity.
Qed.

Lemma wread_loop_fresh (fuel : nat) v : forall (idx maxIdx : Z) (memory : list Z) s
    str s',
  MemoryView.wread_loop fuel v idx maxIdx memory s = Returns str s' ->
  str = [] \/ exists n,
                MemoryView.wstring_of_array (MemoryView.new_wchar_array n s')
                = Some str.
Proof.
  induction fuel as [|fuel IH]; intros idx maxIdx memory s str s';
    [discriminate|].
  cbn [MemoryView.wread_loop].
  match goal with |- context [ReadProcessMemory ?h ?b ?n s] =>
    destruct (ReadProcessMemory h b n s) as [[bs|] s1] end.
  - intros [= <- _]. left. reflexivity.
  - match goal with |- context [MemoryView.wscan ?f ?i ?m ?mem] =>
      destruct (MemoryView.wscan f i m mem) as [[idx' valid]|] end;
      [|discriminate].
    destruct valid.
    + match goal with |- context [MemoryView.wstring_of_array ?arr] =>
        destruct (MemoryView.wstring_of_array arr) as [str'|] eqn:Harr end;
        [|discriminate].
      intros [= <- <-]. right. eexists. exact Harr.
    + apply IH.
Qed.

(** X16. In a foreign context [ReadWstring] never returns what it read
    from the process, nor the array it scanned: a read that succeeds
    ends the loop with the empty string, and after a scan that found a
    zero the array is replaced before the string is built, so a string
    that is not empty is the content of an array made in the state the
    function ends in, after the last read, while the scanned array was
    made before that read. *)
Theorem ReadWstring_foreign_returns_no_remote_bytes v s (fuel : nat)
    (str : list Z) s' :
  GenericWrapper.op_not (process v) = false ->
  MemoryView.ReadWstring fuel v s = Returns str s' ->
  str = [] \/ exists n,
                MemoryView.wstring_of_array (MemoryView.new_wchar_array n s')
                = Some str.
Proof.
  intros Hforeign. unfold MemoryView.ReadWstring. rewrite Hforeign.
  apply wread_loop_fresh.
Qed.

Lemma read_c_wstring_spec (cs : list Z) : forall (fuel : nat) (a : Z) s,
  AllocationText.load_wchars (mem s) a (length cs) = Some cs ->
  Forall (fun c => c <> 0) cs ->
  AllocationText.wchar_at (mem s) (a + 2 * Z.of_nat (length cs)) = Some 0 ->
  (length cs < fuel)%nat ->
  MemoryView.read_c_wstring fuel a s = Returns cs s.
Proof.
  induction cs as [|c cs IH]; intros fuel a s Hl Hnz Hend Hfuel.
  - destruct fuel as [|fuel]; [lia|]. simpl in *.
    rewrite Z.add_0_r in Hend. rewrite Hend. reflexivity.
  - destruct fuel as [|fuel]; [simpl in Hfuel; lia|].
    simpl in Hl.
    destruct (AllocationText.wchar_at (mem s) a) as [x|] eqn:Hx; [|discriminate].
    destruct (AllocationText.load_wchars (mem s) (a + 2) (length cs))
      as [cs'|] eqn:Hl'; [|discriminate].
    injection Hl as -> ->.
    apply Forall_cons in Hnz as [Hc Hnz].
    simpl. rewrite Hx. destruct (Z.eqb_spec c 0); [contradiction|].
    rewrite (IH fuel (a + 2) s Hl' Hnz); [reflexivity | | simpl in Hfuel; lia].
    rewrite <- Hend. f_equal. simpl length. lia.
Qed.

(** X21. In the local context [ReadWstring] returns the two-byte
    characters at [address] up to the first zero character and makes no
    call; the size of the view plays no part. *)
Theorem ReadWstring_local_reads_to_terminator v s (cs : list Z) (fuel : nat) :
  GenericWrapper.op_not (process v) = true ->
  AllocationText.load_wchars (mem s) (address v) (length cs) = Some cs ->
  Forall (fun c => c <> 0) cs ->
  AllocationText.wchar_at (mem s) (address v + 2 * Z.of_nat (length cs)) = Some 0 ->
  (length cs < fuel)%nat ->
  MemoryView.ReadWstring fuel v s = Returns cs s.
Proof.
  intros Hlocal Hl Hnz Hend Hfuel. unfold MemoryView.ReadWstring. rewrite Hlocal.
  apply read_c_wstring_spec; assumption.
Qed.

End MemoryWrapperStrings.

(** ** MemoryWrapper: the allocation a view is copied into *)

Section MemoryWrapperCopies.

Import Win32 MemoryWrapper.

Context `{Kernel} {T : Type} `{Pod T}.

Implicit Types (v : t T) (s : os_state).

Lemma lookup_unmap_bytes (n : nat) : forall (m : gmap Z Z) (p a : Z),
  unmap_bytes m p n !! a
  = if bool_decide (p <= a < p + Z.of_nat n) then None else m !! a.
Proof.
  induction n as [|n IH]; intros m p a.
  - simpl. rewrite bool_decide_eq_false_2 by lia. reflexivity.
  - cbn [unmap_bytes]. rewrite IH.
    destruct (Z.eq_dec a p) as [->|Hne].
    + rewrite (bool_decide_eq_true_2 (p <= p < p + Z.of_nat (S n))) by lia.
      case_bool_decide; [reflexivity | apply lookup_delete_eq].
    + rewrite lookup_delete_ne by congruence.
      repeat case_bool_decide; try reflexivity; lia.
Qed.

Lemma unmap_allocated_block (m : gmap Z Z) (p : Z) (n : nat) :
  (forall i, 0 <= i < Z.of_nat n -> m !! (p + i) = None) ->
  unmap_bytes (store_bytes m p (replicate n 0)) p n = m.
Proof.
  intros Hfresh. apply map_eq. intros a. rewrite lookup_unmap_bytes.
  case_bool_decide as Ha.
  - specialize (Hfresh (a - p) ltac:(lia)).
    replace (p + (a - p)) with a in Hfresh by lia. congruence.
  - apply lookup_store_bytes_outside. rewrite length_replicate. lia.
Qed.

(** X17. A copy whose foreign read fails gives its block back. When the
    allocator has handed out a fresh block of a size that is not zero
    and [ReadProcessMemory] then fails, [ToAllocationWrapper] returns
    the allocation without memory, the block is released by the
    deallocator that matches the allocator ([VirtualFree] above
    [0x8000] bytes, [HeapFree] otherwise), and the local memory is what
    it was before the call. *)
Theorem failed_copy_gives_the_block_back v (n : Z) s :
  0 <= n < 2 ^ 32 ->
  0 <= MemorySize v < 2 ^ 64 ->
  let size := Z.min n (MemorySize v) in
  let page := size >? 32768 in
  let alloc := if page then VirtualAlloc size s else HeapAlloc size s in
  let p := fst alloc in
  let s1 := snd alloc in
  GenericWrapper.op_bool (process v) = true ->
  p <> 0 ->
  size <> 0 ->
  (forall i, 0 <= i < size -> mem s !! (p + i) = None) ->
  remote_read s1 (handle v) (address v) size = None ->
  exists s',
    ToAllocationWrapper v n s
    = Returns (AllocationWrapper.construct 0 0 AllocationWrapper.STACK_ALLOC) s'
    /\ mem s' = mem s
    /\ trace s' = trace s
         ++ [ if page then VirtualAlloc_call size else HeapAlloc_call size;
              ReadProcessMemory_call (handle v) (address v) size;
              if page then VirtualFree_call p else HeapFree_call p ].
Proof.
  intros Hn Hs size page alloc p s1 Hforeign Hp Hsize Hfresh Hread.
  unfold ToAllocationWrapper. rewrite (copy_size v n Hn Hs). fold size page.
  assert (Hmem : forall c q,
             q <> 0 -> (forall i, 0 <= i < size -> mem s !! (q + i) = None) ->
             unmap_bytes (mem (allocate q size (log c s))) q (Z.to_nat size) = mem s).
  { intros c q Hq Hf. unfold allocate. destruct (Z.eqb_spec q 0); [contradiction|].
    simpl. apply unmap_allocated_block. intros i Hi. apply Hf. lia. }
  assert (Hcond : negb (size =? 0) = true)
    by (destruct (Z.eqb_spec size 0); [contradiction | reflexivity]).
  subst s1 p alloc. destruct page; simpl in *.
  - unfold copy_into, ReadProcessMemory_at, ReadProcessMemory. rewrite Hforeign, Hread.
    unfold free_allocation, AllocationWrapper.construct. simpl.
    rewrite Hcond. destruct (Z.eqb_spec (virtual_alloc s size) 0); [contradiction|].
    simpl. eexists. split; [reflexivity|]. simpl. split.
    + apply Hmem; assumption.
    + rewrite allocate_trace. simpl. rewrite <- !app_assoc. reflexivity.
  - unfold copy_into, ReadProcessMemory_at, ReadProcessMemory. rewrite Hforeign, Hread.
    unfold free_allocation, AllocationWrapper.construct. simpl.
    rewrite Hcond. destruct (Z.eqb_spec (heap_alloc s size) 0); [contradiction|].
    simpl. eexists. split; [reflexivity|]. simpl. split.
    + apply Hmem; assumption.
    + rewrite allocate_trace. simpl. rewrite <- !app_assoc. reflexivity.
Qed.

Lemma copy_into_local_memory v (p size : Z)
    (ty : AllocationWrapper.AllocationFunction) (c : os_call) s (bs : list Z) :
  GenericWrapper.op_bool (process v) = false ->
  p <> 0 ->
  (forall i, 0 <= i < size -> mem s !! (p + i) = None) ->
  load_bytes (mem s) (address v) (Z.to_nat size) = Some bs ->
  exists s',
    copy_into v (AllocationWrapper.construct p size ty) size
              (allocate p size (log c s))
    = Returns (AllocationWrapper.construct p size ty) s'
    /\ load_bytes (mem s') p (Z.to_nat size) = Some bs
    /\ (forall a, a < p \/ p + size <= a -> mem s' !! a = mem s !! a).
Proof.
  intros Hlocal Hp Hfresh Hsrc. unfold copy_into. rewrite Hlocal.
  unfold MoveMemory, AllocationWrapper.op_LPVOID. simpl AllocationWrapper.pointer.
  pose proof (load_bytes_length _ _ _ _ Hsrc) as Hlen.
  assert (Hout : forall a, a < p \/ p + size <= a ->
            mem (allocate p size (log c s)) !! a = mem s !! a).
  { intros a Ha. unfold allocate. destruct (Z.eqb_spec p 0); [contradiction|].
    simpl. apply lookup_store_bytes_outside. rewrite length_replicate. lia. }
  assert (Hsame : load_bytes (mem (allocate p size (log c s))) (address v)
                    (Z.to_nat size) = Some bs).
  { rewrite <- Hsrc. apply load_bytes_ext. intros i Hi. apply Hout.
    destruct (load_bytes_Some_mapped _ _ _ _ Hsrc i Hi) as [x Hx].
    destruct (Z_lt_dec (address v + i) p); [lia|].
    destruct (Z_le_dec (p + size) (address v + i)); [lia|].
    specialize (Hfresh (address v + i - p) ltac:(lia)).
    replace (p + (address v + i - p)) with (address v + i) in Hfresh by lia.
    congruence. }
  rewrite Hsame, (allocate_mapped p size _ Hp). simpl.
  eexists. split; [reflexivity|]. simpl. split.
  - apply mapped_store. exact Hlen.
  - intros a Ha. rewrite lookup_store_bytes_outside by (rewrite Hlen; lia).
    apply Hout. exact Ha.
Qed.

(** X18. The allocation made by [ToAllocationWrapper] in the local
    context is a snapshot of the view: every index below its size reads
    the byte the view held at that offset, the bytes of the view are
    left as they were, and [CompareMemory] finds the snapshot equal to
    an allocation laid over the viewed bytes. *)
Theorem snapshot_holds_the_viewed_bytes v (n : Z) s (bs : list Z) :
  0 <= n < 2 ^ 32 ->
  0 <= MemorySize v < 2 ^ 64 ->
  let size := Z.min n (MemorySize v) in
  let page := size >? 32768 in
  let p := if page then virtual_alloc s size else heap_alloc s size in
  GenericWrapper.op_bool (process v) = false ->
  p <> 0 ->
  address v <> 0 ->
  size <= Machine.INT_MAX ->
  (forall i, 0 <= i < size -> mem s !! (p + i) = None) ->
  load_bytes (mem s) (address v) (Z.to_nat size) = Some bs ->
  exists a s',
    ToAllocationWrapper v n s = Returns a s'
    /\ (forall i, 0 <= i < size ->
          AllocationWrapper.op_index (mem s') a i = mem s !! (address v + i))
    /\ (forall i, 0 <= i < size ->
          mem s' !! (address v + i) = mem s !! (address v + i))
    /\ AllocationWrapper.CompareMemory (mem s') a
         (AllocationWrapper.construct (address v) size AllocationWrapper.STACK_ALLOC)
       = Some true.
Proof.
  intros Hn Hs size page p Hlocal Hp Haddr Hint Hfresh Hsrc.
  assert (Hsize0 : 0 <= size) by (unfold size; lia).
  assert (Hcopy : exists ty s',
            ToAllocationWrapper v n s
            = Returns (AllocationWrapper.construct p size ty) s'
            /\ load_bytes (mem s') p (Z.to_nat size) = Some bs
            /\ (forall a, a < p \/ p + size <= a -> mem s' !! a = mem s !! a)).
  { unfold ToAllocationWrapper. rewrite (copy_size v n Hn Hs). fold size page.
    subst p. destruct page; simpl.
    - eexists.
      exact (copy_into_local_memory v _ size _ _ s bs Hlocal Hp Hfresh Hsrc).
    - eexists.
      exact (copy_into_local_memory v _ size _ _ s bs Hlocal Hp Hfresh Hsrc). }
  destruct Hcopy as (ty & s' & Hret & Hdst & Hout).
  assert (Hsrc_out : forall i, 0 <= i < size ->
            address v + i < p \/ p + size <= address v + i).
  { intros i Hi.
    destruct (load_bytes_Some_mapped _ _ _ _ Hsrc i ltac:(lia)) as [x Hx].
    destruct (Z_lt_dec (address v + i) p); [lia|].
    destruct (Z_le_dec (p + size) (address v + i)); [lia|].
    specialize (Hfresh (address v + i - p) ltac:(lia)).
    replace (p + (address v + i - p)) with (address v + i) in Hfresh by lia.
    congruence. }
  assert (Hbyte : forall i, 0 <= i < size ->
            mem s' !! (p + i) = mem s !! (address v + i)).
  { intros i Hi.
    rewrite <- (Z2Nat.id i) by lia.
    rewrite <- (load_bytes_lookup _ _ _ _ (Z.to_nat i) Hdst) by lia.
    apply (load_bytes_lookup _ _ _ _ (Z.to_nat i) Hsrc). lia. }
  assert (Hkept : forall i, 0 <= i < size ->
            mem s' !! (address v + i) = mem s !! (address v + i)).
  { intros i Hi. apply Hout. apply Hsrc_out. exact Hi. }
  set (a := AllocationWrapper.construct p size ty).
  set (b := AllocationWrapper.construct (address v) size AllocationWrapper.STACK_ALLOC).
  assert (Hva : AllocationWrapper.has_value a = negb (size =? 0)).
  { unfold a, AllocationWrapper.construct, AllocationWrapper.has_value. simpl.
    destruct (Z.eqb_spec p 0); [contradiction|].
    destruct (size =? 0); reflexivity. }
  assert (Hvb : AllocationWrapper.has_value b = negb (size =? 0)).
  { unfold b, AllocationWrapper.construct, AllocationWrapper.has_value. simpl.
    destruct (Z.eqb_spec (address v) 0); [contradiction|].
    destruct (size =? 0); reflexivity. }
  exists a, s'. split; [exact Hret|]. split; [|split].
  - intros i Hi. unfold AllocationWrapper.op_index. rewrite Hva.
    destruct (Z.eqb_spec size 0); [lia|]. simpl.
    rewrite to_SIZE_T_small by (unfold Machine.INT_MAX in Hint; pow2; lia).
    destruct (Z.ltb_spec i size); [|lia]. apply Hbyte. exact Hi.
  - exact Hkept.
  - destruct (CompareMemory_true_iff (mem s') a b) as (r & Hr & Hiff).
    + simpl. lia.
    + intros _ i Hi. simpl in *. rewrite (Hbyte i Hi).
      destruct (load_bytes_Some_mapped _ _ _ _ Hsrc i ltac:(lia)) as [x Hx]. eauto.
    + intros _ i Hi. simpl in *. rewrite (Hkept i Hi).
      destruct (load_bytes_Some_mapped _ _ _ _ Hsrc i ltac:(lia)) as [x Hx]. eauto.
    + rewrite Hr. f_equal. apply Hiff. rewrite Hva, Hvb.
      destruct (Z.eqb_spec size 0); simpl; [left; auto | right].
      repeat split. intros j Hj. simpl in *.
      rewrite (Hbyte j Hj), (Hkept j Hj). reflexivity.
Qed.

(** X19. A copy of no bytes in the local context: [HeapAlloc] is called
    for zero bytes, nothing is moved, and the allocation returned has
    no backing memory and no owner for the block that was handed out. *)
Theorem copy_of_nothing_owns_nothing v (n : Z) s :
  0 <= n < 2 ^ 32 ->
  0 <= MemorySize v < 2 ^ 64 ->
  Z.min n (MemorySize v) = 0 ->
  GenericWrapper.op_bool (process v) = false ->
  ToAllocationWrapper v n s
  = Returns (AllocationWrapper.construct (heap_alloc s 0) 0
                                         AllocationWrapper.HEAP_ALLOC)
            (log (HeapAlloc_call 0) s)
  /\ AllocationWrapper.Memory
       (AllocationWrapper.construct (heap_alloc s 0) 0 AllocationWrapper.HEAP_ALLOC)
     = None.
Proof.
  intros Hn Hs Hzero Hlocal. split; [|reflexivity].
  unfold ToAllocationWrapper. rewrite (copy_size v n Hn Hs), Hzero. simpl.
  unfold copy_into. rewrite Hlocal. unfold MoveMemory. simpl.
  unfold allocate. destruct (heap_alloc s 0 =? 0); reflexivity.
Qed.

End MemoryWrapperCopies.

(** ** AcquireMutex *)

Section AcquireMutexFacts.

Import Win32 AcquireMutex.

Context `{Kernel}.

(** X20. The life of a guard on a mutex wrapper that has owners: the
    constructor waits on the handle of the wrapper, the destructor
    releases the mutex of the same handle, and these are the only two
    calls; the system state is untouched, and afterwards every control
    block is what it was before the guard, so the mutex wrapper has the
    owners it had and its handle has not been closed. *)
Theorem guard_waits_then_releases (mutex : GenericWrapper.t Z)
    (w : GenericWrapper.world lock_state) (n : nat)
    (d : lock_state -> lock_state) :
  GenericWrapper.blocks w !! GenericWrapper.ReferenceCounter mutex
    = Some (GenericWrapper.ControlBlock (S n) d) ->
  let h := GenericWrapper.Get mutex in
  let held := snd (construct mutex w) in
  let after := destroy (fst (construct mutex w)) held in
  GenericWrapper.env held
    = log_lock (WaitForSingleObject_call h) (GenericWrapper.env w)
  /\ GenericWrapper.blocks held !! GenericWrapper.ReferenceCounter mutex
     = Some (GenericWrapper.ControlBlock (S (S n)) d)
  /\ after
     = GenericWrapper.World (GenericWrapper.blocks w)
         (log_lock (ReleaseMutex_call h)
            (log_lock (WaitForSingleObject_call h) (GenericWrapper.env w))).
Proof.
  intros Hb h held after.
  set (k := GenericWrapper.ReferenceCounter mutex) in *.
  set (b1 := alter (fun cb => GenericWrapper.ControlBlock
                                (S (GenericWrapper.use_count cb))
                                (GenericWrapper.deleter cb))
                   k (GenericWrapper.blocks w)).
  set (id := fresh (dom b1)).
  assert (Hk1 : b1 !! k = Some (GenericWrapper.ControlBlock (S (S n)) d)).
  { unfold b1. rewrite lookup_alter_eq, Hb. reflexivity. }
  assert (Hid : id <> k).
  { intros Heq. pose proof (is_fresh (dom b1)) as Hfresh. fold id in Hfresh.
    apply Hfresh. rewrite Heq. apply elem_of_dom. rewrite Hk1. eauto. }
  assert (Hidw : GenericWrapper.blocks w !! id = None).
  { pose proof (is_fresh (dom b1)) as Hfresh. fold id in Hfresh.
    apply not_elem_of_dom in Hfresh.
    unfold b1 in Hfresh. rewrite lookup_alter_ne in Hfresh by congruence.
    exact Hfresh. }
  split; [reflexivity|]. split.
  - subst held. simpl. fold k b1 id. rewrite lookup_insert_ne by exact Hid.
    exact Hk1.
  - subst after held. unfold destroy, drop_block. simpl. fold k b1 id.
    rewrite lookup_insert_eq. simpl.
    unfold GenericWrapper.destroy. simpl. fold k.
    rewrite lookup_delete_ne by exact Hid.
    rewrite lookup_insert_ne by exact Hid.
    rewrite Hk1. simpl. f_equal.
    apply map_eq. intros j.
    destruct (decide (j = k)) as [->|Hjk].
    + rewrite lookup_insert_eq, Hb. reflexivity.
    + rewrite lookup_insert_ne by congruence.
      destruct (decide (j = id)) as [->|Hji].
      * rewrite lookup_delete_eq, Hidw. reflexivity.
      * rewrite lookup_delete_ne by congruence.
        rewrite lookup_insert_ne by congruence.
        unfold b1. rewrite lookup_alter_ne by congruence. reflexivity.
Qed.

End AcquireMutexFacts.

(** ** The further properties at work on the small machines *)

Section MoreWitnesses.

Import Win32 Scenario Fixtures.

#[local] Existing Instance sample_kernel.

(** The only owner of [5] tests true and its destruction releases [5];
    the only owner of the null value tests false and releases nothing. *)
Lemma truthy_wrapper_is_the_released_one_witness :
  let c := GenericWrapper.construct 5 record_release (Some (-1)) log_world in
  let z := GenericWrapper.construct 0 record_release (Some (-1)) log_world in
  GenericWrapper.env (GenericWrapper.run [GenericWrapper.Drop (fst c)] (snd c)) = [5]
  /\ GenericWrapper.env (GenericWrapper.run [GenericWrapper.Drop (fst z)] (snd z)) = [].
Proof.
  intros c z. split.
  - exact (truthy_wrapper_is_the_released_one 5 record_release (Some (-1)) log_world
             [GenericWrapper.Drop (fst c)] ltac:(repeat constructor) eq_refl).
  - exact (truthy_wrapper_is_the_released_one 0 record_release (Some (-1)) log_world
             [GenericWrapper.Drop (fst z)] ltac:(repeat constructor) eq_refl).
Defined.

(** The search handle [68] is closed by [FindClose], with no probe. *)
Lemma FindWrapper_closes_without_probe_witness :
  let c := FindWrapper.construct 68 boot_world in
  GenericWrapper.env (GenericWrapper.run [GenericWrapper.Drop (fst c)] (snd c))
  = log (FindClose_call 68) boot.
Proof.
  intros c.
  destruct (FindWrapper_closes_without_probe 68 boot_world
              [GenericWrapper.Drop (fst c)] ltac:(repeat constructor) eq_refl)
    as [Hclose _].
  exact (Hclose ltac:(discriminate) ltac:(discriminate)).
Defined.

(** An allocation of four bytes at the null pointer. *)
Lemma empty_allocation_reads_nothing_witness :
  let a := AllocationWrapper.construct 0 4 AllocationWrapper.HEAP_ALLOC in
  AllocationWrapper.GetSize a = 0
  /\ AllocationWrapper.op_index (mem boot) a 2 = Some 0
  /\ AllocationText.ReadString (mem boot) a = Some None.
Proof.
  intros a.
  destruct (empty_allocation_reads_nothing (T := Z) (mem boot) 0 4
              AllocationWrapper.HEAP_ALLOC (or_introl eq_refl))
    as (_ & Hsize & Hindex & _ & Hstring & _).
  split; [exact Hsize|]. split; [exact (Hindex 2) | exact Hstring].
Defined.

(** The byte [9] written at offset [1] of the four bytes at [8192]. *)
Lemma SetByte_then_index_witness :
  let a := AllocationWrapper.construct 8192 4 AllocationWrapper.STACK_ALLOC in
  (exists m',
     AllocationWrapper.SetByte (mem boot) a 1 9 = Some (true, m')
     /\ AllocationWrapper.op_index m' a 1 = Some 9
     /\ AllocationWrapper.op_index m' a 2 = Some 3)
  /\ AllocationWrapper.SetByte (mem boot) a 4 9 = Some (false, mem boot).
Proof.
  intros a.
  destruct (SetByte_then_index (mem boot) a 1 9 eq_refl
              (boot_backed 8192 4 _ (or_introl eq_refl) ltac:(lia)))
    as [Hin _].
  destruct (SetByte_then_index (mem boot) a 4 9 eq_refl
              (boot_backed 8192 4 _ (or_introl eq_refl) ltac:(lia)))
    as [_ Hout].
  split.
  - destruct (Hin ltac:(simpl; lia)) as (m' & Hset & Hread & Hothers & _).
    exists m'. split; [exact Hset|]. split; [exact (Hread ltac:(lia))|].
    rewrite (Hothers 2 ltac:(lia)). reflexivity.
  - apply Hout. simpl. lia.
Defined.

(** The four bytes [1 2 3 0] at [8192] read as the string of three
    bytes; the first two of them alone read as the string of two. *)
Lemma ReadString_is_bounded_prefix_witness :
  let a := AllocationWrapper.construct 8192 4 AllocationWrapper.STACK_ALLOC in
  let b := AllocationWrapper.construct 8192 2 AllocationWrapper.STACK_ALLOC in
  (exists str, AllocationText.ReadString (mem boot) a = Some (Some str)
               /\ length str = 3%nat)
  /\ (exists str, AllocationText.ReadString (mem boot) b = Some (Some str)
                  /\ length str = 2%nat).
Proof.
  intros a b. split.
  - destruct (ReadString_is_bounded_prefix (mem boot) a eq_refl
                (boot_backed 8192 4 _ (or_introl eq_refl) ltac:(lia)))
      as (str & Hret & _).
    exists str. split; [exact Hret|].
    vm_compute in Hret. injection Hret as <-. reflexivity.
  - destruct (ReadString_is_bounded_prefix (mem boot) b eq_refl
                (boot_backed 8192 2 _ (or_introl eq_refl) ltac:(lia)))
      as (str & Hret & _).
    exists str. split; [exact Hret|].
    vm_compute in Hret. injection Hret as <-. reflexivity.
Defined.

Lemma wide_boot_backed (size : Z) (ty : AllocationWrapper.AllocationFunction) :
  0 <= size <= 7 ->
  AllocationWrapper.backed (mem wide_boot) (AllocationWrapper.construct 12288 size ty).
Proof.
  intros Hsize _ i Hi. simpl in *.
  assert (Hcases : i = 0 \/ i = 1 \/ i = 2 \/ i = 3 \/ i = 4 \/ i = 5 \/ i = 6) by lia.
  destruct Hcases as [-> | [-> | [-> | [-> | [-> | [-> | ->]]]]]];
    vm_compute; eauto.
Defined.

(** The seven bytes at [12288] read as the wide string of two
    characters. *)
Lemma ReadWString_is_bounded_prefix_witness :
  let a := AllocationWrapper.construct 12288 7 AllocationWrapper.STACK_ALLOC in
  exists str, AllocationText.ReadWString (mem wide_boot) a = Some (Some str)
              /\ str = [65; 322].
Proof.
  intros a.
  destruct (ReadWString_is_bounded_prefix (mem wide_boot) a eq_refl
              (wide_boot_backed 7 _ ltac:(lia)))
    as (str & Hret & _).
  exists str. split; [exact Hret|].
  vm_compute in Hret. injection Hret as <-. reflexivity.
Defined.

(** The two bytes at [8192] and the two bytes at [8200]. *)
Lemma CompareMemory_symmetric_transitive_witness :
  let a := AllocationWrapper.construct 8192 2 AllocationWrapper.STACK_ALLOC in
  let b := AllocationWrapper.construct 8200 2 AllocationWrapper.STACK_ALLOC in
  AllocationWrapper.CompareMemory (mem boot) a b
  = AllocationWrapper.CompareMemory (mem boot) b a.
Proof.
  intros a b.
  assert (Hint : 0 <= 2 <= Machine.INT_MAX) by (unfold Machine.INT_MAX; lia).
  pose proof (boot_backed 8192 2 AllocationWrapper.STACK_ALLOC
                (or_introl eq_refl) ltac:(lia)) as Ha.
  pose proof (boot_backed 8200 2 AllocationWrapper.STACK_ALLOC
                (or_intror eq_refl) ltac:(lia)) as Hb.
  exact (proj1 (CompareMemory_symmetric_transitive (mem boot) a b a
                  Hint Hint Ha Hb Ha)).
Defined.

(** A heap block shared by two allocations is given to [HeapFree] once,
    when the second of them goes. *)
Lemma allocation_memory_freed_once_witness :
  let c := AllocationOwner.construct 8192 4 AllocationWrapper.HEAP_ALLOC
             deallocation_world in
  let l := [AllocationOwner.Copy; AllocationOwner.Drop; AllocationOwner.Drop] in
  GenericWrapper.env (AllocationOwner.run (fst c) l (snd c))
    = [AllocationOwner.by_HeapFree 8192]
  /\ GenericWrapper.env (AllocationOwner.run (fst c) (take 2 l) (snd c)) = [].
Proof.
  intros c l.
  destruct (allocation_memory_freed_once 8192 4 AllocationWrapper.HEAP_ALLOC
              deallocation_world l eq_refl) as (Hfreed & _ & Hbefore).
  split.
  - destruct (Hfreed ltac:(discriminate) ltac:(discriminate))
      as (_ & _ & _ & Hheap & _).
    exact (Hheap eq_refl).
  - exact (Hbefore (take 2 l) [AllocationOwner.Drop] eq_refl ltac:(discriminate)).
Defined.


(** A view on the handle [68] and its offset by one byte, destroyed one
    after the other: the handle is probed and closed twice. *)
Lemma views_close_the_process_handle_witness :
  let c := MemoryWrapper.construct (T := Z) 8192 4 68 boot_world in
  let o := MemoryWrapper.GetOffset (fst c) 1 (snd c) in
  trace (GenericWrapper.env
           (MemoryView.destroy (fst c) (MemoryView.destroy (fst o) (snd o))))
  = [GetFileInformationByHandle_call 68; CloseHandle_call 68;
     GetFileInformationByHandle_call 68; CloseHandle_call 68].
Proof.
  intros c o.
  destruct (views_close_the_process_handle (T := Z) 8192 4 68 1 boot_world)
    as [Hforeign _].
  destruct (Hforeign ltac:(discriminate) ltac:(discriminate)) as [_ Htwice].
  fold c o in Htwice. rewrite Htwice. reflexivity.
Defined.

(** A local view of two bytes at [8192] reads the string of three. *)
Lemma ReadString_local_reads_to_terminator_witness :
  let v := fst (MemoryWrapper.construct (T := Z) 8192 2 0 boot_world) in
  MemoryWrapper.ReadString 8 v boot = MemoryWrapper.Returns [1; 2; 3] boot.
Proof.
  intros v.
  apply (ReadString_local_reads_to_terminator v boot [1; 2; 3] 8 eq_refl eq_refl).
  - repeat constructor; discriminate.
  - reflexivity.
  - simpl. lia.
Defined.

(** On the second machine the foreign [ReadString] returns the first
    byte of a fresh array. *)
Lemma ReadString_foreign_returns_no_remote_bytes_witness :
  let v := fst (MemoryWrapper.construct (H := noisy_kernel) (T := Z)
                  4096 3 80 boot_world) in
  MemoryWrapper.ReadString (H := noisy_kernel) 4 v boot
    = MemoryWrapper.Returns [120] (log (ReadProcessMemory_call 80 4096 3) boot)
  /\ ([120] = []
      \/ exists n s0,
           [120] = MemoryWrapper.string_of_array
                     (MemoryWrapper.new_char_array (H := noisy_kernel) n s0)).
Proof.
  intros v. split; [reflexivity|].
  exact (ReadString_foreign_returns_no_remote_bytes (H := noisy_kernel) v boot 4
           [120] (log (ReadProcessMemory_call 80 4096 3) boot) eq_refl eq_refl).
Defined.

(** On the third machine the array that [ReadWstring] scans holds
    zeros, being made before any call, and the string returned is the
    two characters of the array made after the read. *)
Lemma ReadWstring_foreign_returns_no_remote_bytes_witness :
  let v := fst (MemoryWrapper.construct (H := changing_kernel) (T := Z)
                  4096 8 80 boot_world) in
  let s' := log (ReadProcessMemory_call 80 4096 8) boot in
  MemoryView.new_wchar_array (H := changing_kernel) 20 boot = replicate 20 0
  /\ MemoryView.ReadWstring (H := changing_kernel) 4 v boot
     = MemoryWrapper.Returns [120; 121] s'
  /\ ([120; 121] = []
      \/ exists n,
           MemoryView.wstring_of_array
             (MemoryView.new_wchar_array (H := changing_kernel) n s')
           = Some [120; 121]).
Proof.
  intros v s'. split; [reflexivity|]. split; [reflexivity|].
  exact (ReadWstring_foreign_returns_no_remote_bytes (H := changing_kernel) v boot 4
           [120; 121] s' eq_refl eq_refl).
Defined.

(** Behind the handle [96] nothing can be read: the heap block is given
    back and the memory is as before. *)
Lemma failed_copy_gives_the_block_back_witness :
  let x := fst (MemoryWrapper.construct (T := Z) 4096 3 96 boot_world) in
  exists s',
    MemoryWrapper.ToAllocationWrapper x 7 boot
    = MemoryWrapper.Returns
        (AllocationWrapper.construct 0 0 AllocationWrapper.STACK_ALLOC) s'
    /\ mem s' = mem boot
    /\ trace s' = [HeapAlloc_call 3; ReadProcessMemory_call 96 4096 3;
                   HeapFree_call 65536].
Proof.
  intros x.
  pose proof (failed_copy_gives_the_block_back x 7 boot ltac:(lia)
                ltac:(simpl; lia)) as Hback.
  simpl in Hback. apply Hback.
  - reflexivity.
  - discriminate.
  - discriminate.
  - intros i Hi.
    assert (Hcases : i = 0 \/ i = 1 \/ i = 2) by lia.
    destruct Hcases as [-> | [-> | ->]]; reflexivity.
  - reflexivity.
Defined.

(** The snapshot of three of the four local bytes at [8192]. *)
Lemma snapshot_holds_the_viewed_bytes_witness :
  let v := fst (MemoryWrapper.construct (T := Z) 8192 4 0 boot_world) in
  exists a s',
    MemoryWrapper.ToAllocationWrapper v 3 boot = MemoryWrapper.Returns a s'
    /\ AllocationWrapper.op_index (mem s') a 2 = Some 3
    /\ AllocationWrapper.CompareMemory (mem s') a
         (AllocationWrapper.construct 8192 3 AllocationWrapper.STACK_ALLOC)
       = Some true.
Proof.
  intros v.
  pose proof (snapshot_holds_the_viewed_bytes v 3 boot [1; 2; 3]
                ltac:(lia) ltac:(simpl; lia)) as Hsnap.
  simpl in Hsnap.
  destruct Hsnap as (a & s' & Hret & Hindex & _ & Hequal).
  - reflexivity.
  - discriminate.
  - discriminate.
  - discriminate.
  - intros i Hi.
    assert (Hcases : i = 0 \/ i = 1 \/ i = 2) by lia.
    destruct Hcases as [-> | [-> | ->]]; reflexivity.
  - reflexivity.
  - exists a, s'. split; [exact Hret|]. split; [|exact Hequal].
    rewrite (Hindex 2 ltac:(lia)). reflexivity.
Defined.

(** A copy of no bytes of the local view. *)
Lemma copy_of_nothing_owns_nothing_witness :
  let v := fst (MemoryWrapper.construct (T := Z) 8192 4 0 boot_world) in
  MemoryWrapper.ToAllocationWrapper v 0 boot
  = MemoryWrapper.Returns
      (AllocationWrapper.construct 65536 0 AllocationWrapper.HEAP_ALLOC)
      (log (HeapAlloc_call 0) boot).
Proof.
  intros v.
  exact (proj1 (copy_of_nothing_owns_nothing v 0 boot ltac:(lia) ltac:(simpl; lia)
                  eq_refl eq_refl)).
Defined.

(** A guard on the mutex of handle [52]: one wait, one release, and the
    world of control blocks as before. *)
Lemma guard_waits_then_releases_witness :
  let guarded := AcquireMutex.construct mutex mutex_world in
  AcquireMutex.calls
    (GenericWrapper.env (AcquireMutex.destroy (fst guarded) (snd guarded)))
  = [AcquireMutex.WaitForSingleObject_call 52; AcquireMutex.ReleaseMutex_call 52]
  /\ GenericWrapper.blocks (AcquireMutex.destroy (fst guarded) (snd guarded))
     = GenericWrapper.blocks mutex_world.
Proof.
  intros guarded.
  destruct (guard_waits_then_releases mutex mutex_world 0 _
              (lookup_insert_eq _ _ _)) as (_ & _ & Hafter).
  fold guarded in Hafter. rewrite Hafter. split; reflexivity.
Defined.

(** A local view of two bytes at [12288] reads the wide string of two
    characters. *)
Lemma ReadWstring_local_reads_to_terminator_witness :
  let v := fst (MemoryWrapper.construct (T := Z) 12288 2 0 boot_world) in
  MemoryView.ReadWstring 8 v wide_boot = MemoryWrapper.Returns [65; 322] wide_boot.
Proof.
  intros v.
  apply (ReadWstring_local_reads_to_terminator v wide_boot [65; 322] 8
           eq_refl eq_refl).
  - repeat constructor; discriminate.
  - reflexivity.
  - simpl. lia.
Defined.

End MoreWitnesses.
